(** * The actor runtime of [generator_process/actor.py]

    A shallow embedding of the [Future], [Message], [TracedError] and
    [Actor] classes: the future handle a proxied call returns, the
    backend dispatch ([_receive], [_backend_loop]), the sender thread of
    a proxied call ([_send]), the frontend setup that installs the
    proxies ([_setup]) and the class-level registry behind [shared]. *)

From stdpp Require Import gmap strings list fin_maps.

(** ** Python values carried by the queues *)

(** An exception object.  [exc_is_Exception] is [isinstance(e, Exception)]:
    it is false for the classes that derive from [BaseException] only
    ([KeyboardInterrupt], [SystemExit], [GeneratorExit], and this module's
    own [TracedError]).  [exc_cause] is the [__cause__] attribute when it
    holds an [Exception(trace)]. *)
Record exn := Exn {
  exc_class : string;
  exc_msg : string;
  exc_is_Exception : bool;
  exc_cause : option string
}.

#[warnings="-register-all"]
Inductive value :=
| VNone
| VInt (z : Z)
| VStr (s : string)
| VList (l : list value)
| VExc (e : exn)
| VTraced (base : exn) (trace : string).

Definition AssertionError : exn :=
  Exn "AssertionError"%string ""%string true None.
Definition AttributeError (msg : string) : exn := Exn "AttributeError"%string msg true None.

(** ** class Message *)

Record Message := {
  method_name : string;
  args : list value;
  kwargs : gmap string value
}.

Definition CANCEL : string := "__cancel__"%string.
Definition END : string := "__end__"%string.

(** What the outbound ("message") queue holds: a [Message] object or a
    plain string such as [Message.CANCEL]. *)
Inductive mq_item :=
| MqMessage (m : Message)
| MqStr (s : string).

(** [response == Message.END] *)
Definition is_END (response : value) : bool :=
  match response with
  | VStr s => bool_decide (s = END)
  | _ => false
  end.

(** [extra_message == Message.CANCEL], for a variable that holds [None]
    or an item of the message queue. *)
Definition is_CANCEL (extra_message : option mq_item) : bool :=
  match extra_message with
  | Some (MqStr s) => bool_decide (s = CANCEL)
  | _ => false
  end.

(** ** class Future *)

(** A callback is a callable object.  [CbEvent ev] is the closure
    [_done] that [result()] and [exception()] build around a fresh
    [threading.Event] [ev]: calling it sets the event.  [CbClient id] is
    a callable of the client; it is taken to return, and the model
    records that it was called. *)
Inductive callback :=
| CbEvent (ev : nat)
| CbClient (id : nat).

#[global] Instance callback_eq_dec : EqDecision callback.
Proof. solve_decision. Defined.

#[global] Instance callback_countable : Countable callback.
Proof.
  refine (inj_countable'
    (λ c, match c with CbEvent ev => inl ev | CbClient id => inr id end)
    (λ s, match s with inl ev => CbEvent ev | inr id => CbClient id end) _).
  by intros [].
Defined.

(** One call of a callback made by the future: [response_callback(self,
    response)] or [done_callback(self)]. *)
Inductive call :=
| CallResponse (cb : callback) (response : value)
| CallDone (cb : callback).

(** The attributes of a [Future] object.  [_cancelled] is the attribute
    [cancel()] assigns; [__init__] does not create it, hence the option. *)
Record Future := MkFuture {
  _response_callbacks : gset callback;
  _exception_callbacks : gset callback;
  _done_callbacks : gset callback;
  _responses : list value;
  _exception : option exn;
  done : bool;
  cancelled : bool;
  _cancelled : option bool
}.

(** [Future.__init__] *)
Definition Future__init__ : Future :=
  MkFuture ∅ ∅ ∅ [] None false false None.

(** How a method call ends. *)
Inductive completion :=
| Returns
| Raises (e : exn).

(** The effect of a method of [Future]: the object afterwards, the
    callbacks it called in order, and how the call ended. *)
Record effect := Eff {
  after : Future;
  invoked : list call;
  how : completion
}.

Definition add_response (response : value) (self : Future) : effect :=
  Eff (MkFuture (_response_callbacks self) (_exception_callbacks self)
         (_done_callbacks self) (_responses self ++ [response])
         (_exception self) (done self) (cancelled self) (_cancelled self))
      ((λ response_callback, CallResponse response_callback response)
         <$> elements (_response_callbacks self))
      Returns.

Definition set_exception (exception : exn) (self : Future) : effect :=
  Eff (MkFuture (_response_callbacks self) (_exception_callbacks self)
         (_done_callbacks self) (_responses self)
         (Some exception) (done self) (cancelled self) (_cancelled self))
      [] Returns.

Definition set_done (self : Future) : effect :=
  if done self then Eff self [] (Raises AssertionError)
  else
    Eff (MkFuture (_response_callbacks self) (_exception_callbacks self)
           (_done_callbacks self) (_responses self)
           (_exception self) true (cancelled self) (_cancelled self))
        (CallDone <$> elements (_done_callbacks self))
        Returns.

Definition cancel (self : Future) : effect :=
  let self1 :=
    MkFuture (_response_callbacks self) (_exception_callbacks self)
      (_done_callbacks self) (_responses self)
      (_exception self) (done self) (cancelled self) (Some true) in
  set_done self1.

Definition add_response_callback (cb : callback) (self : Future) : effect :=
  Eff (MkFuture ({[cb]} ∪ _response_callbacks self) (_exception_callbacks self)
         (_done_callbacks self) (_responses self)
         (_exception self) (done self) (cancelled self) (_cancelled self))
      [] Returns.

Definition add_exception_callback (cb : callback) (self : Future) : effect :=
  Eff (MkFuture (_response_callbacks self) ({[cb]} ∪ _exception_callbacks self)
         (_done_callbacks self) (_responses self)
         (_exception self) (done self) (cancelled self) (_cancelled self))
      [] Returns.

Definition add_done_callback (cb : callback) (self : Future) : effect :=
  Eff (MkFuture (_response_callbacks self) (_exception_callbacks self)
         ({[cb]} ∪ _done_callbacks self) (_responses self)
         (_exception self) (done self) (cancelled self) (_cancelled self))
      [] Returns.

(** The inner function [_response] of [result()]. *)
Definition _response (self : Future) : value :=
  match _responses self with
  | [] => VNone
  | [r] => r
  | _ => VList (_responses self)
  end.

(** Where a call of [result()] or [exception()] stands: it raised, it
    returned a value, or it sits in [event.wait()] on the event [ev]. *)
Inductive status :=
| Raised (e : exn)
| Returned (v : value)
| Waiting (ev : nat).

(** [result()] up to its return, its raise, or its [event.wait()], when
    no other thread touches the future while the call runs: the
    statements of lines 45 to 54 one after the other.  [ev] is the event
    the call creates.  The call among other threads, which can act
    between any two of its statements, is [result_thread] below. *)
Definition result (ev : nat) (self : Future) : Future * status :=
  match _exception self with
  | Some e => (self, Raised e)
  | None =>
      if done self then (self, Returned (_response self))
      else (after (add_done_callback (CbEvent ev) self), Waiting ev)
  end.

(** [result()] from the return of [event.wait()] on. *)
Definition result_resume (self : Future) : status :=
  match _exception self with
  | Some e => Raised e
  | None => Returned (_response self)
  end.

(** [exception()], in the same two parts and likewise with no other
    thread acting meanwhile; among other threads it is
    [exception_thread] below.  [None] is [VNone]. *)
Definition exception_value (self : Future) : value :=
  match _exception self with
  | Some e => VExc e
  | None => VNone
  end.

Definition exception (ev : nat) (self : Future) : Future * status :=
  if done self then (self, Returned (exception_value self))
  else (after (add_done_callback (CbEvent ev) self), Waiting ev).

Definition exception_resume (self : Future) : status :=
  Returned (exception_value self).

(** [event.wait()] returns once the event is set, and the only code that
    sets [ev] is the callback [CbEvent ev]. *)
Definition event_is_set (ev : nat) (log : list call) : bool :=
  existsb (λ c, match c with
                | CallDone (CbEvent ev') => bool_decide (ev' = ev)
                | _ => false
                end) log.

(** The operations threads perform on one shared [Future]. *)
Inductive op :=
| OpAddResponse (response : value)
| OpSetException (e : exn)
| OpSetDone
| OpCancel
| OpAddResponseCallback (cb : callback)
| OpAddExceptionCallback (cb : callback)
| OpAddDoneCallback (cb : callback)
| OpResult (ev : nat)
| OpException (ev : nat).

Definition apply_op (o : op) (self : Future) : effect :=
  match o with
  | OpAddResponse r => add_response r self
  | OpSetException e => set_exception e self
  | OpSetDone => set_done self
  | OpCancel => cancel self
  | OpAddResponseCallback cb => add_response_callback cb self
  | OpAddExceptionCallback cb => add_exception_callback cb self
  | OpAddDoneCallback cb => add_done_callback cb self
  | OpResult ev => Eff (fst (result ev self)) [] Returns
  | OpException ev => Eff (fst (exception ev self)) [] Returns
  end.

(** A sequence of operations on the same object, by whichever threads.
    An operation that raises does so in its own thread; the object keeps
    the state the operation left and the later operations still run.
    [OpResult] and [OpException] are calls that run up to their wait
    with nothing in between; a call that is interleaved with other
    operations shows in the sequence as its [OpAddDoneCallback], at the
    place where it registers. *)
Fixpoint run_ops (os : list op) (self : Future) : Future * list call :=
  match os with
  | [] => (self, [])
  | o :: os' =>
      let e := apply_op o self in
      let '(self', log) := run_ops os' (after e) in
      (self', invoked e ++ log)
  end.

(** [result()] among other threads.  The call runs statement by
    statement, and the other threads operate on the future in between:
    [g1] after the test of [_exception] (line 45), [g2] after the test
    of [done] (47), [g3] from the registration of [_done] (53) until
    the call runs again after [event.wait()] (54), [g4] before the
    second test of [_exception] (55), [g5] before the last
    [_response()] (57).  The event is made by the call (50) and set by
    [_done] only, so it is set when [_done] has been called since the
    registration. *)
Definition result_thread (ev : nat) (g1 g2 g3 g4 g5 : list op) (self : Future)
  : Future * status :=
  match _exception self with
  | Some e => (self, Raised e)
  | None =>
      let s1 := fst (run_ops g1 self) in
      if done s1 then
        let s2 := fst (run_ops g2 s1) in
        (s2, Returned (_response s2))
      else
        let s2 := fst (run_ops g2 s1) in
        let s3 := after (add_done_callback (CbEvent ev) s2) in
        let waited := run_ops g3 s3 in
        if event_is_set ev (snd waited) then
          let s5 := fst (run_ops g4 (fst waited)) in
          match _exception s5 with
          | Some e => (s5, Raised e)
          | None =>
              let s6 := fst (run_ops g5 s5) in
              (s6, Returned (_response s6))
          end
        else (fst waited, Waiting ev)
  end.


(** ** The backend: [Actor._receive] and [Actor._backend_loop] *)

(** What calling a method does: it returns a value that is not a
    generator, it returns a generator (which, iterated, yields [ys] and
    then stops or raises), or it raises.  A generator that yields
    without end keeps [_receive] in its loop; it has no place here. *)
Inductive gen_end :=
| GenStop
| GenRaise (e : exn).

Inductive behaviour :=
| BReturn (v : value)
| BGenerator (ys : list value) (fin : gen_end)
| BRaise (e : exn).

(** What the frontend threads put on the message queue before each read
    the backend makes of it, one entry per read. *)
Definition schedule := list (list mq_item).

Definition arrive (sched : schedule) (q : list mq_item)
  : list mq_item * schedule :=
  (q ++ hd [] sched, tl sched).

(** The result of one [_receive]: the values put on the response queue
    in order, the message queue and the schedule left, and the exception
    that left [_receive], if one did. *)
Record received := Received {
  pushed : list value;
  mq_after : list mq_item;
  sched_after : schedule;
  escaped : option exn
}.

(** How [_backend_loop] stands when the model stops following it:
    blocked in [self._message_queue.get()] with nothing more to come,
    ended by an exception, or still running when the fuel ran out. *)
Inductive loop_end :=
| LoopBlocked
| LoopRaised (e : exn)
| LoopFuel (q : list mq_item) (sched : schedule).

Section Backend.

(** The attributes of the backend instance by name: what
    calling [getattr(self, name)] on the arguments does, [None] when the
    instance has no such attribute. *)
Variable methods :
  string → option (list value → gmap string value → behaviour).

(** [traceback.format_exc()] in the handler of the exception. *)
Variable format_exc : exn → string.

(** [getattr(self, message.method_name)] called on [message.args] and
    [message.kwargs].  A string has no attribute [method_name]. *)
Definition dispatch (message : mq_item) : behaviour :=
  match message with
  | MqStr _ =>
      BRaise (AttributeError
                "'str' object has no attribute 'method_name'"%string)
  | MqMessage m =>
      match methods (method_name m) with
      | None => BRaise (AttributeError (method_name m))
      | Some method => method (args m) (kwargs m)
      end
  end.

(** The [for res in iter(response)] loop over the values the generator
    yields.  [get(block=False)] takes the head of the queue when there
    is one and raises [Empty] otherwise, which the bare [except]
    drops; what it returns is not bound to a name. *)
Fixpoint emit (ys : list value) (sched : schedule) (q : list mq_item)
  : list value * (list mq_item * schedule) :=
  match ys with
  | [] => ([], (q, sched))
  | res :: ys' =>
      let extra_message : option mq_item := None in
      let '(q1, sched1) := arrive sched q in
      let q2 := tail q1 in
      if is_CANCEL extra_message then ([], (q2, sched1))
      else
        let '(out, rest) := emit ys' sched1 q2 in
        (res :: out, rest)
  end.

(** The [except Exception as e] clause, entered with the values
    [out] already put on the response queue; then, when the exception
    was caught, the final [put(Message.END)]. *)
Definition handle (e : exn) (out : list value)
    (q : list mq_item) (sched : schedule) : received :=
  if exc_is_Exception e
  then Received (out ++ [VTraced e (format_exc e); VStr END]) q sched None
  else Received out q sched (Some e).

Definition _receive (message : mq_item) (sched : schedule)
    (q : list mq_item) : received :=
  match dispatch message with
  | BRaise e => handle e [] q sched
  | BReturn response => Received [response; VStr END] q sched None
  | BGenerator ys fin =>
      let '(out, (q', sched')) := emit ys sched q in
      match fin with
      | GenStop => Received (out ++ [VStr END]) q' sched' None
      | GenRaise e => handle e out q' sched'
      end
  end.

(** [_backend_loop] after [_load_dependencies()]:
    [while True: self._receive(self._message_queue.get())].  Each
    round of the model is one blocking [get()]: with an item at hand
    it is served; with none at hand and none scheduled the loop is
    blocked for good. *)
Fixpoint _backend_loop (fuel : nat) (sched : schedule) (q : list mq_item)
  : list value * loop_end :=
  match fuel with
  | 0 => ([], LoopFuel q sched)
  | S fuel' =>
      let '(q1, sched1) := arrive sched q in
      match q1 with
      | [] =>
          match sched1 with
          | [] => ([], LoopBlocked)
          | _ => _backend_loop fuel' sched1 []
          end
      | message :: q2 =>
          let r := _receive message sched1 q2 in
          match escaped r with
          | Some e => (pushed r, LoopRaised e)
          | None =>
              let '(out, fin) :=
                _backend_loop fuel' (sched_after r) (mq_after r) in
              (pushed r ++ out, fin)
          end
      end
  end.

End Backend.

(** A small actor for the examples: [add(a, b)] returns the sum,
    [countdown(n)] is a generator of [n, ..., 1], [boom()] raises a
    [ValueError], [interrupt()] raises [KeyboardInterrupt], and
    [flaky()] is a generator that yields a [ValueError] object, then 1,
    and then raises another [ValueError]. *)
Definition ValueError (msg : string) : exn := Exn "ValueError"%string msg true None.
Definition TypeError (msg : string) : exn := Exn "TypeError"%string msg true None.
Definition KeyboardInterrupt : exn :=
  Exn "KeyboardInterrupt"%string ""%string false None.

Fixpoint countdown (n : nat) : list value :=
  match n with
  | 0 => []
  | S k => VInt (Z.of_nat n) :: countdown k
  end.

Definition example_methods (name : string)
  : option (list value → gmap string value → behaviour) :=
  if bool_decide (name = "add"%string) then
    Some (λ args _, match args with
                    | [VInt a; VInt b] => BReturn (VInt (a + b))
                    | _ => BRaise (TypeError "add"%string)
                    end)
  else if bool_decide (name = "countdown"%string) then
    Some (λ args _, match args with
                    | [VInt n] => BGenerator (countdown (Z.to_nat n)) GenStop
                    | _ => BRaise (TypeError "countdown"%string)
                    end)
  else if bool_decide (name = "boom"%string) then
    Some (λ _ _, BRaise (ValueError "boom"%string))
  else if bool_decide (name = "interrupt"%string) then
    Some (λ _ _, BRaise KeyboardInterrupt)
  else if bool_decide (name = "flaky"%string) then
    Some (λ _ _, BGenerator [VExc (ValueError "warn"%string); VInt 1]
                   (GenRaise (ValueError "boom"%string)))
  else None.

Definition example_format_exc (e : exn) : string :=
  ("Traceback (most recent call last): " +:+ exc_class e)%string.

(** ** The sender thread of a proxied call: [_send_thread] in [Actor._send] *)

(** What the sender thread and the threads around it share: the future
    of the call, the two queues, the actor's lock, and the callbacks the
    future has called so far.  A queue is the list of the items put and
    not yet taken; a [put] on a full queue waits, which changes when an
    item is put and not the order of the items. *)
Record exchange := Exchange {
  future : Future;
  message_queue : list mq_item;
  response_queue : list value;
  lock_held : bool;
  log : list call
}.

(** Where the sender thread is: before [self._lock.acquire()], at the
    test of [while not future.done], in [self._response_queue.get()],
    past [self._lock.release()], or ended by an exception. *)
Inductive sender_pc :=
| AtAcquire
| AtWhile
| AtGet
| Released
| Died (e : exn).

(** [response.base.__cause__ = Exception(response.trace)] *)
Definition with_cause (base : exn) (trace : string) : exn :=
  Exn (exc_class base) (exc_msg base) (exc_is_Exception base) (Some trace).

(** The [if]/[elif] chain on one response. *)
Definition deliver (response : value) (fut : Future) : effect :=
  if is_END response then set_done fut
  else
    match response with
    | VTraced base trace => set_exception (with_cause base trace) fut
    | VExc e =>
        if exc_is_Exception e then set_exception e fut
        else add_response response fut
    | _ => add_response response fut
    end.

(** The responses that reach the final [else] of the chain: not [END],
    not a [TracedError], not an instance of [Exception]. *)
Definition plain (response : value) : bool :=
  negb (is_END response)
  && match response with
     | VTraced _ _ => false
     | VExc e => negb (exc_is_Exception e)
     | _ => true
     end.

(** One step of the sender thread; [None] when it cannot move (the lock
    is taken, the response queue is empty) or has ended. *)
Definition sender_step (name : string) (args : list value)
    (kwargs : gmap string value) (pc : sender_pc) (x : exchange)
  : option (sender_pc * exchange) :=
  match pc with
  | AtAcquire =>
      if lock_held x then None
      else Some (AtWhile,
                 Exchange (future x)
                   (message_queue x ++ [MqMessage (Build_Message name args kwargs)])
                   (response_queue x) true (log x))
  | AtWhile =>
      if done (future x)
      then Some (Released,
                 Exchange (future x) (message_queue x) (response_queue x)
                   false (log x))
      else if cancelled (future x)
      then Some (AtGet,
                 Exchange (future x) (message_queue x ++ [MqStr CANCEL])
                   (response_queue x) (lock_held x) (log x))
      else Some (AtGet, x)
  | AtGet =>
      match response_queue x with
      | [] => None
      | response :: rest =>
          let e := deliver response (future x) in
          Some (match how e with Returns => AtWhile | Raises err => Died err end,
                Exchange (after e) (message_queue x) rest (lock_held x)
                  (log x ++ invoked e))
      end
  | Released => None
  | Died _ => None
  end.

(** The sender thread left to run alone until it cannot move. *)
Fixpoint sender_run (fuel : nat) (name : string) (args : list value)
    (kwargs : gmap string value) (pc : sender_pc) (x : exchange)
  : sender_pc * exchange :=
  match fuel with
  | 0 => (pc, x)
  | S fuel' =>
      match sender_step name args kwargs pc x with
      | None => (pc, x)
      | Some (pc', x') => sender_run fuel' name args kwargs pc' x'
      end
  end.

(** The threads around the sender thread: any thread holding the future
    performs an operation on it, the backend puts a value on the
    response queue. *)
Definition caller (o : op) (x : exchange) : exchange :=
  let e := apply_op o (future x) in
  Exchange (after e) (message_queue x) (response_queue x) (lock_held x)
    (log x ++ invoked e).

Definition backend_put (response : value) (x : exchange) : exchange :=
  Exchange (future x) (message_queue x) (response_queue x ++ [response])
    (lock_held x) (log x).

(** One move of one thread; a sender thread that cannot move stays
    where it is. *)
Inductive action :=
| Sender
| Caller (o : op)
| Backend (response : value).

Definition act (name : string) (args : list value)
    (kwargs : gmap string value) (s : sender_pc * exchange) (a : action)
  : sender_pc * exchange :=
  match a with
  | Sender =>
      match sender_step name args kwargs (fst s) (snd s) with
      | Some s' => s'
      | None => s
      end
  | Caller o => (fst s, caller o (snd s))
  | Backend response => (fst s, backend_put response (snd s))
  end.

(** Any interleaving of the threads, move by move. *)
Definition interleave (name : string) (args : list value)
    (kwargs : gmap string value) (moves : list action)
    (s : sender_pc * exchange) : sender_pc * exchange :=
  foldl (act name args kwargs) s moves.

(** The proxy [_send(name)] called with [args] and [kwargs]: a new
    future, and the sender thread about to start. *)
Definition proxy_call (x : exchange) : sender_pc * exchange :=
  (AtAcquire,
   Exchange Future__init__ (message_queue x) (response_queue x)
     (lock_held x) []).

(** What holds of a call, at every moment, when its future was made
    with [cancelled] false: it is false still, and the message queue
    has gained nothing but the call's own [Message]. *)
Definition uncancelled (name : string) (args : list value)
    (kwargs : gmap string value) (mq0 : list mq_item)
    (s : sender_pc * exchange) : Prop :=
  cancelled (future (snd s)) = false
  ∧ ((fst s = AtAcquire ∧ message_queue (snd s) = mq0)
     ∨ (fst s ≠ AtAcquire
        ∧ message_queue (snd s)
          = mq0 ++ [MqMessage (Build_Message name args kwargs)])).

(** [Actor.can_use] of a frontend object: [self._lock.acquire(block=False)],
    and [self._lock.release()] when that took the lock; what the
    [acquire] returned is the result. *)
Definition Actor_can_use (x : exchange) : bool * exchange :=
  if lock_held x then (false, x)
  else
    let taken :=
      Exchange (future x) (message_queue x) (response_queue x) true (log x) in
    (true,
     Exchange (future taken) (message_queue taken) (response_queue taken)
       false (log taken)).

(** One round of [_backend_loop] on the queues of an exchange: the
    message at the head of the message queue is received, with nothing
    arriving meanwhile, and what [_receive] puts goes to the end of the
    response queue. *)
Definition backend_serve
    (methods : string → option (list value → gmap string value → behaviour))
    (format_exc : exn → string) (x : exchange) : exchange :=
  match message_queue x with
  | [] => x
  | message :: q =>
      let r := _receive methods format_exc message [] q in
      Exchange (future x) (mq_after r) (response_queue x ++ pushed r)
        (lock_held x) (log x)
  end.

(** A proxied call on its own: the proxy makes the future, the sender
    thread takes the lock and puts the [Message], the backend serves it,
    and the sender thread runs on the responses.  The responses reach
    the sender thread in the order of the puts, whenever it reads, so
    reading after the backend is through loses nothing. *)
Definition call_once
    (methods : string → option (list value → gmap string value → behaviour))
    (format_exc : exn → string) (name : string) (args : list value)
    (kwargs : gmap string value) (fuel : nat) (x : exchange)
  : sender_pc * exchange :=
  let started := sender_run 1 name args kwargs AtAcquire (snd (proxy_call x)) in
  sender_run fuel name args kwargs (fst started)
    (backend_serve methods format_exc (snd started)).

(** ** class Actor: frontend setup and the shared instance *)

Inductive ActorContext :=
| FRONTEND
| BACKEND.

(** What a name of an instance is bound to: a value that cannot be
    called, a method or other callable defined in the class, or the
    closure [self._send(name)] that [_setup] puts in its place. *)
Inductive attr :=
| Data
| Method
| Proxy (name : string).

(** [callable(getattr(self, name))] *)
Definition callable (a : option attr) : bool :=
  match a with
  | Some Method | Some (Proxy _) => true
  | _ => false
  end.

Definition _protected_methods : gset string :=
  {[ "start"%string; "close"%string; "is_alive"%string;
     "can_use"%string; "shared"%string ]}.

(** [name.startswith("_")] *)
Definition startswith (p name : string) : bool := String.prefix p name.

(** The names [dir(self)] lists.  Python sorts them; the order plays no
    part below, since the loop assigns to each listed name once and to
    no other name. *)
Definition dir (self : gmap string attr) : list string :=
  (map_to_list self).*1.

(** The [lambda] that [filter] applies, lazily, while the loop runs. *)
Definition remote (self : gmap string attr) (name : string) : bool :=
  callable (self !! name)
  && negb (startswith "_" name)
  && bool_decide (name ∉ _protected_methods).

(** [Actor._setup] on the names of the instance. *)
Definition _setup (context : ActorContext) (self : gmap string attr)
  : gmap string attr :=
  match context with
  | FRONTEND =>
      let self1 := <["_lock"%string := Data]> self in
      foldl (λ self2 name,
               if remote self2 name then <[name := Proxy name]> self2
               else self2)
            self1 (dir self1)
  | BACKEND => self
  end.

(** The members the class [Actor] itself defines. *)
Definition Actor_members : gmap string attr :=
  list_to_map
    [ ("_message_queue"%string, Data); ("_response_queue"%string, Data);
      ("_lock"%string, Data); ("_shared_instance"%string, Data);
      ("_protected_methods"%string, Data);
      ("__init__"%string, Method); ("_setup"%string, Method);
      ("shared"%string, Method); ("start"%string, Method);
      ("close"%string, Method); ("shared_close"%string, Method);
      ("is_alive"%string, Method); ("can_use"%string, Method);
      ("_load_dependencies"%string, Method);
      ("_backend_loop"%string, Method); ("_receive"%string, Method);
      ("_send"%string, Method); ("__del__"%string, Method) ].

(** A class deriving from [Actor]: its name, the names of the classes
    after it in its method resolution order, and the members an
    instance finds through the class. *)
Record py_class := PyClass {
  cname : string;
  cbases : list string;
  members : gmap string attr
}.

(** An [Actor] object.  [process] is [None] until [start()] assigns it,
    then whether the worker process is alive. *)
Record Actor := MkActor {
  class_of : py_class;
  context : ActorContext;
  _message_queue : nat;
  _response_queue : nat;
  namespace : gmap string attr;
  process : option bool
}.

(** The state of the frontend process that the constructor touches: the
    objects by identity, the identity the next object gets, and for each
    class the [_shared_instance] entry of its own dictionary (absent, or
    holding [None] or an object). *)
Record heap := Heap {
  objects : gmap nat Actor;
  next_id : nat;
  slots : gmap string (option nat)
}.

(** The two queues the default arguments of [__init__] were evaluated
    to when the class was defined. *)
Definition default_message_queue : nat := 0.
Definition default_response_queue : nat := 1.

(** The state when the module has been loaded: no object yet, and
    [Actor._shared_instance = None]. *)
Definition heap0 : heap :=
  Heap ∅ 0 {[ "Actor"%string := None ]}.

(** [Actor.__init__]; returns the new object's identity. *)
Definition Actor__init__ (cls : py_class) (ctx : ActorContext)
    (message_queue response_queue : nat) (h : heap) : nat * heap :=
  let self := next_id h in
  let names :=
    <["context"%string := Data]>
      (<["_message_queue"%string := Data]>
         (<["_response_queue"%string := Data]> (members cls))) in
  let obj :=
    MkActor cls ctx message_queue response_queue (_setup ctx names) None in
  (self,
   Heap (<[self := obj]> (objects h)) (S self)
        (<[cname cls := Some self]> (slots h))).

(** Reading [cls._shared_instance]: the first dictionary along the
    method resolution order that has the entry. *)
Fixpoint class_lookup (slots : gmap string (option nat)) (mro : list string)
  : option nat :=
  match mro with
  | [] => None
  | c :: mro' =>
      match slots !! c with
      | Some entry => entry
      | None => class_lookup slots mro'
      end
  end.

Definition _shared_instance (cls : py_class) (h : heap) : option nat :=
  class_lookup (slots h) (cname cls :: cbases cls).

(** [start()] of a frontend object spawns the worker process and
    returns; of a backend object it enters [_backend_loop] and does not
    return, which is [None] here. *)
Definition start (self : nat) (h : heap) : option heap :=
  match objects h !! self with
  | Some obj =>
      match context obj with
      | FRONTEND =>
          Some (Heap (<[self := MkActor (class_of obj) (context obj)
                                  (_message_queue obj) (_response_queue obj)
                                  (namespace obj) (Some true)]> (objects h))
                     (next_id h) (slots h))
      | BACKEND => None
      end
  | None => None
  end.

(** [Actor.shared]: [cls._shared_instance or cls(ActorContext.FRONTEND).start()];
    an [Actor] object is true. *)
Definition shared (cls : py_class) (h : heap) : option (nat * heap) :=
  match _shared_instance cls h with
  | Some inst => Some (inst, h)
  | None =>
      let '(self, h1) :=
        Actor__init__ cls FRONTEND default_message_queue
          default_response_queue h in
      h2 ← start self h1; Some (self, h2)
  end.

(** [Actor.close].  A frontend object terminates its process and closes
    its two queues, whose identities are returned; it has no attribute
    [process] before [start()].  A backend object does nothing.  [self]
    is an object of the heap. *)
Definition close (self : nat) (h : heap) : heap * list nat * completion :=
  match objects h !! self with
  | Some obj =>
      match context obj with
      | FRONTEND =>
          match process obj with
          | None =>
              (h, [],
               Raises (AttributeError
                         "'Actor' object has no attribute 'process'"%string))
          | Some _ =>
              (Heap (<[self := MkActor (class_of obj) (context obj)
                                 (_message_queue obj) (_response_queue obj)
                                 (namespace obj) (Some false)]> (objects h))
                    (next_id h) (slots h),
               [_message_queue obj; _response_queue obj],
               Returns)
          end
      | BACKEND => (h, [], Returns)
      end
  | None => (h, [], Returns)
  end.

(** [Actor.shared_close].  When [close()] raises, the assignment of
    [None] is not reached. *)
Definition shared_close (cls : py_class) (h : heap)
  : heap * list nat * completion :=
  match _shared_instance cls h with
  | None => (h, [], Returns)
  | Some inst =>
      let '(h1, closed, c) := close inst h in
      match c with
      | Raises e => (h1, closed, Raises e)
      | Returns =>
          (Heap (objects h1) (next_id h1) (<[cname cls := None]> (slots h1)),
           closed, Returns)
      end
  end.

(** Constructions one after the other, each given by the class, the
    context and the two queues. *)
Definition construct_all
    (constructions : list (py_class * ActorContext * nat * nat)) (h : heap)
  : heap :=
  foldl (λ h c, snd (Actor__init__ c.1.1.1 c.1.1.2 c.1.2 c.2 h))
        h constructions.

(** The class [Actor] itself and a subclass with two methods of its own,
    used in the examples. *)
Definition Actor_class : py_class := PyClass "Actor" [] Actor_members.

Definition Generator_class : py_class :=
  PyClass "Generator" ["Actor"%string]
    (<["prompt_to_image"%string := Method]>
       (<["choose_device"%string := Method]> Actor_members)).

(** * The actions of [generator_process/actions/prompt_to_image.py] *)

(** ** class Optimizations *)

(** What an attribute of an [Optimizations] object holds: a [bool]; for
    [attention_slice_size] a [str] or an [int]; for [can_use] and
    [apply] the bound method. *)
Inductive field :=
| FBool (b : bool)
| FStr (s : string)
| FInt (z : Z)
| FMethod.

(** The truth value [not] negates. *)
Definition truth (v : field) : bool :=
  match v with
  | FBool b => b
  | FStr s => negb (bool_decide (s = ""%string))
  | FInt z => negb (bool_decide (z = 0%Z))
  | FMethod => true
  end.

Record Optimizations := MkOptimizations {
  attention_slicing : bool;
  attention_slice_size : field;
  inference_mode : bool;
  cudnn_benchmark : bool;
  tf32 : bool;
  amp : bool;
  half_precision : bool;
  sequential_cpu_offload : bool;
  channels_last_memory_format : bool;
  cpu_only : bool
}.


(** [getattr(self, property)] for the names the class defines; [None]
    is the [AttributeError] of a name the object does not have.  The
    attributes every object has (the names in double underscores) are
    not listed. *)
Definition Optimizations_getattr (self : Optimizations) (property : string)
  : option field :=
  if bool_decide (property = "attention_slicing"%string)
  then Some (FBool (attention_slicing self))
  else if bool_decide (property = "attention_slice_size"%string)
  then Some (attention_slice_size self)
  else if bool_decide (property = "inference_mode"%string)
  then Some (FBool (inference_mode self))
  else if bool_decide (property = "cudnn_benchmark"%string)
  then Some (FBool (cudnn_benchmark self))
  else if bool_decide (property = "tf32"%string)
  then Some (FBool (tf32 self))
  else if bool_decide (property = "amp"%string)
  then Some (FBool (amp self))
  else if bool_decide (property = "half_precision"%string)
  then Some (FBool (half_precision self))
  else if bool_decide (property = "sequential_cpu_offload"%string)
  then Some (FBool (sequential_cpu_offload self))
  else if bool_decide (property = "channels_last_memory_format"%string)
  then Some (FBool (channels_last_memory_format self))
  else if bool_decide (property = "cpu_only"%string)
  then Some (FBool (cpu_only self))
  else if bool_decide (property = "can_use"%string) then Some FMethod
  else if bool_decide (property = "apply"%string) then Some FMethod
  else None.

(** [self.__annotations__.get(property, None)], when it is an
    [Annotated[...]] alias: its [__metadata__], the tuple of the
    arguments after the type. *)
Definition annotated_metadata (property : string) : option (list string) :=
  if bool_decide (property ∈ [ "inference_mode"%string; "cudnn_benchmark"%string;
                               "tf32"%string; "amp"%string;
                               "half_precision"%string ])
  then Some ["cuda"%string]
  else None.

(** What a caller passes as [device]: a [str], as [prompt_to_image]
    does, or a tuple of [str]. *)
Inductive device_arg :=
| DevStr (s : string)
| DevTuple (t : list string).

(** [annotation.__metadata__ == device]: a tuple equals a tuple of equal
    items, and no [str]. *)
Definition metadata_eq (metadata : list string) (device : device_arg) : bool :=
  match device with
  | DevStr _ => false
  | DevTuple t => bool_decide (metadata = t)
  end.

(** [Optimizations.can_use]; [None] is the [AttributeError] of
    [getattr]. *)
Definition Optimizations_can_use (self : Optimizations) (property : string)
    (device : device_arg) : option bool :=
  match Optimizations_getattr self property with
  | None => None
  | Some v =>
      if negb (truth v) then Some false
      else
        match annotated_metadata property with
        | Some metadata => Some (metadata_eq metadata device)
        | None => Some true
        end
  end.

(** The calls [apply] makes on the pipeline. *)
Inductive pipeline_call :=
| EnableAttentionSlicing (slice_size : field)
| DisableAttentionSlicing
| EnableSequentialCpuOffload
| UnetTo (memory_format : string).

(** What [apply] has done when it returns the pipeline: the two
    settings of [torch.backends] and the calls on the pipeline, in
    order. *)
Record applied := Applied {
  cudnn_benchmark_set : bool;
  allow_tf32_set : bool;
  pipeline_calls : list pipeline_call
}.

(** A [try: ... except: pass] block whose body is one [can_use] and the
    call chosen by it: the call is made, and whatever the call or the
    [can_use] raises is dropped. *)
Definition attempt (can : option bool) (yes no : list pipeline_call)
  : list pipeline_call :=
  match can with
  | Some true => yes
  | Some false => no
  | None => []
  end.

(** [Optimizations.apply]; [None] is an exception raised by one of the
    two assignments, which stand outside the [try] blocks. *)
Definition Optimizations_apply (self : Optimizations) (device : device_arg)
  : option applied :=
  benchmark ← Optimizations_can_use self "cudnn_benchmark" device;
  allow_tf32 ← Optimizations_can_use self "tf32" device;
  Some (Applied benchmark allow_tf32
          (attempt (Optimizations_can_use self "attention_slicing" device)
             [EnableAttentionSlicing (attention_slice_size self)]
             [DisableAttentionSlicing]
           ++ attempt (Optimizations_can_use self "sequential_cpu_offload" device)
                [EnableSequentialCpuOffload] []
           ++ attempt (Optimizations_can_use self
                         "channels_last_memory_format" device)
                [UnetTo "channels_last"] [UnetTo "contiguous_format"])).

(** ** [choose_device] and the device [prompt_to_image] uses *)



(** ** [_configure_model_padding] *)

(** What [m._conv_forward] finds: the method of the class, or the
    attribute the function has set on the module, bound to
    [nn.Conv2d._conv_forward] or to [_conv_forward_asymmetric]. *)
Inductive conv_forward :=
| ClassForward
| BoundConv2dForward
| BoundAsymmetricForward.

(** A module of the model, as far as the function looks at it: whether
    it is a [Conv2d] or a [ConvTranspose2d], its
    [_reversed_padding_repeated_twice], and the three attributes the
    function sets or deletes. *)
Record module := MkModule {
  is_conv : bool;
  _reversed_padding_repeated_twice : Z * Z * Z * Z;
  asymmetric_padding_mode : option (string * string);
  asymmetric_padding : option ((Z * Z * Z * Z) * (Z * Z * Z * Z));
  _conv_forward : conv_forward
}.

(** The body of the loop, on one module. *)
Definition configure_module (seamless : bool) (seamless_axes : list string)
    (m : module) : module :=
  if is_conv m then
    if seamless then
      let '(p0, p1, p2, p3) := _reversed_padding_repeated_twice m in
      MkModule (is_conv m) (_reversed_padding_repeated_twice m)
        (Some (if bool_decide ("x"%string ∈ seamless_axes)
               then "circular"%string else "constant"%string,
               if bool_decide ("y"%string ∈ seamless_axes)
               then "circular"%string else "constant"%string))
        (Some ((p0, p1, 0%Z, 0%Z), (0%Z, 0%Z, p2, p3)))
        BoundAsymmetricForward
    else
      MkModule (is_conv m) (_reversed_padding_repeated_twice m)
        None None BoundConv2dForward
  else m.

(** [_configure_model_padding] on the modules [model.modules()] lists. *)
Definition _configure_model_padding (modules : list module) (seamless : bool)
    (seamless_axes : list string) : list module :=
  configure_module seamless seamless_axes <$> modules.

(** * Properties *)

(** ** What every operation on a [Future] keeps *)

Section FutureOps.

Implicit Types (self : Future) (o : op) (cb : callback).

Lemma set_done_after_done self : done (after (set_done self)) = true.
Proof. unfold set_done. by destruct (done self) eqn:E. Qed.

Lemma apply_op_done_mono o self :
  done self = true → done (after (apply_op o self)) = true.
Proof.
  intros Hd.
  destruct o; simpl; try done;
    unfold cancel, set_done, result, exception; simpl;
    rewrite ?Hd; simpl; try done.
  by destruct (_exception self).
Qed.

Lemma apply_op_done_callbacks o self :
  _done_callbacks self ⊆ _done_callbacks (after (apply_op o self)).
Proof.
  destruct o; simpl; try set_solver;
    unfold cancel, set_done, result, exception; simpl.
  - destruct (done self); set_solver.
  - destruct (done self); set_solver.
  - destruct (_exception self); [set_solver|].
    destruct (done self); simpl; set_solver.
  - destruct (done self); simpl; set_solver.
Qed.

Lemma apply_op_responses o self :
  _responses self `prefix_of` _responses (after (apply_op o self)).
Proof.
  destruct o; simpl; try done;
    unfold cancel, set_done, result, exception; simpl.
  - by apply prefix_app_r.
  - by destruct (done self).
  - by destruct (done self).
  - destruct (_exception self); [done|]. by destruct (done self).
  - by destruct (done self).
Qed.

(** A done-callback is called only by the operation that flips [done],
    and that operation calls every callback registered by then. *)
Lemma apply_op_calls_done o self cb :
  CallDone cb ∈ invoked (apply_op o self) →
  done self = false ∧ done (after (apply_op o self)) = true
  ∧ cb ∈ _done_callbacks self.
Proof.
  destruct o; simpl;
    unfold cancel, set_done; simpl;
    try (intros H; by apply elem_of_nil in H).
  - intros H. apply list_elem_of_fmap in H as (cb' & Heq & _). done.
  - destruct (done self) eqn:E; simpl.
    + intros H; by apply elem_of_nil in H.
    + intros H. apply list_elem_of_fmap in H as (cb' & Heq & Hin).
      injection Heq as ->. by apply elem_of_elements in Hin.
  - destruct (done self) eqn:E; simpl.
    + intros H; by apply elem_of_nil in H.
    + intros H. apply list_elem_of_fmap in H as (cb' & Heq & Hin).
      injection Heq as ->. by apply elem_of_elements in Hin.
Qed.

Lemma apply_op_flip o self cb :
  done self = false → done (after (apply_op o self)) = true →
  cb ∈ _done_callbacks self → CallDone cb ∈ invoked (apply_op o self).
Proof.
  intros Hd.
  destruct o; simpl; unfold cancel, set_done, result, exception; simpl;
    rewrite ?Hd; simpl; try congruence.
  - intros _ Hin. apply list_elem_of_fmap_2. by apply elem_of_elements.
  - intros _ Hin. apply list_elem_of_fmap_2. by apply elem_of_elements.
  - destruct (_exception self); simpl; congruence.
Qed.

Lemma run_ops_cons o os self :
  run_ops (o :: os) self =
    (fst (run_ops os (after (apply_op o self))),
     invoked (apply_op o self) ++ snd (run_ops os (after (apply_op o self)))).
Proof. simpl. by destruct (run_ops os (after (apply_op o self))). Qed.

Lemma run_ops_done_mono os self :
  done self = true → done (fst (run_ops os self)) = true.
Proof.
  revert self. induction os as [|o os IH]; intros self Hd; [done|].
  rewrite run_ops_cons. simpl. apply IH. by apply apply_op_done_mono.
Qed.

Lemma run_ops_no_call_when_done os self cb :
  done self = true → CallDone cb ∉ snd (run_ops os self).
Proof.
  revert self. induction os as [|o os IH]; intros self Hd.
  - simpl. apply not_elem_of_nil.
  - rewrite run_ops_cons. simpl. intros [H|H]%elem_of_app.
    + apply apply_op_calls_done in H as (H & _). congruence.
    + by apply (IH (after (apply_op o self)));
        [apply apply_op_done_mono|].
Qed.

(** From a state that is not done, a registered done-callback has
    been called exactly when the future has become done. *)
Lemma run_ops_called_iff_done os self cb :
  done self = false → cb ∈ _done_callbacks self →
  CallDone cb ∈ snd (run_ops os self) ↔ done (fst (run_ops os self)) = true.
Proof.
  revert self. induction os as [|o os IH]; intros self Hd Hcb.
  - simpl. split; [by intros ?%elem_of_nil | congruence].
  - rewrite run_ops_cons. simpl.
    destruct (done (after (apply_op o self))) eqn:Hd'.
    + split.
      * intros _. by apply run_ops_done_mono.
      * intros _. apply elem_of_app. left. by apply apply_op_flip.
    + rewrite elem_of_app, <- IH;
        [| done | by apply (apply_op_done_callbacks o self)].
      split; [|tauto]. intros [H|H]; [|done].
      apply apply_op_calls_done in H as (_ & H & _). congruence.
Qed.

Lemma event_is_set_spec ev (l : list call) :
  event_is_set ev l = true ↔ CallDone (CbEvent ev) ∈ l.
Proof.
  unfold event_is_set. rewrite existsb_exists. split.
  - intros (c & Hin & Hc). apply list_elem_of_In in Hin.
    destruct c as [|[ev'|]]; try done.
    apply bool_decide_eq_true in Hc. by subst.
  - intros Hin. exists (CallDone (CbEvent ev)). split.
    + by apply list_elem_of_In.
    + by apply bool_decide_eq_true.
Qed.

End FutureOps.

(** ** [Future.result] *)

Lemma result_when_done (ev : nat) (self : Future) :
  done self = true → result ev self = (self, result_resume self).
Proof.
  intros Hd. unfold result, result_resume. rewrite Hd.
  by destruct (_exception self).
Qed.

(** What [_response()] returns, by the number of responses. *)
Lemma response_resolution (self : Future) :
  (length (_responses self) = 0 → _response self = VNone)
  ∧ (∀ r, _responses self = [r] → _response self = r)
  ∧ (1 < length (_responses self) → _response self = VList (_responses self)).
Proof.
  unfold _response.
  destruct (_responses self) as [|r [|r' rs]]; simpl;
    repeat split; try done; try lia; congruence.
Qed.

Lemma event_not_set_when_done (ev : nat) (os : list op) (self : Future) :
  done self = true → event_is_set ev (snd (run_ops os self)) = false.
Proof.
  intros Hd. apply not_true_is_false. rewrite event_is_set_spec.
  by apply run_ops_no_call_when_done.
Qed.

Lemma event_set_iff_done (ev : nat) (os : list op) (self : Future) :
  done self = false →
  let registered := after (add_done_callback (CbEvent ev) self) in
  event_is_set ev (snd (run_ops os registered)) = true
  ↔ done (fst (run_ops os registered)) = true.
Proof.
  intros Hd. cbv zeta. rewrite event_is_set_spec.
  apply run_ops_called_iff_done; simpl; [done|].
  apply elem_of_union_l. by apply elem_of_singleton.
Qed.

(** C1, on the code.  [result()] among the other threads, which act on
    the future between its statements.  With an exception recorded when
    it is called, it raises it.  With none, and the future done at the
    test of [done], it returns [None] for no response, the response for
    one, the list for more.  With the future not done at that test it
    registers [_done] and waits.  If the future is still not done at
    the registration, the event is set exactly when the future has
    become done, and the call then ends by the same resolution on the
    state it finds.  If the future has become done between the test and
    the registration, [_done] is never called: the call stays in
    [event.wait()] whatever happens next, although the future is done.
    With no other thread acting, the call is [result]. *)
Theorem result_among_threads (ev : nat) (g1 g2 g3 g4 g5 : list op)
    (self : Future) :
  let s1 := fst (run_ops g1 self) in
  let s2 := fst (run_ops g2 s1) in
  let s3 := after (add_done_callback (CbEvent ev) s2) in
  let s4 := fst (run_ops g3 s3) in
  let s5 := fst (run_ops g4 s4) in
  let s6 := fst (run_ops g5 s5) in
  (∀ e, _exception self = Some e →
        result_thread ev g1 g2 g3 g4 g5 self = (self, Raised e))
  ∧ (_exception self = None → done s1 = true →
       result_thread ev g1 g2 g3 g4 g5 self = (s2, Returned (_response s2))
       ∧ (length (_responses s2) = 0 → _response s2 = VNone)
       ∧ (∀ r, _responses s2 = [r] → _response s2 = r)
       ∧ (1 < length (_responses s2) → _response s2 = VList (_responses s2)))
  ∧ (_exception self = None → done s1 = false → done s2 = false →
       (event_is_set ev (snd (run_ops g3 s3)) = true ↔ done s4 = true)
       ∧ (done s4 = false →
            result_thread ev g1 g2 g3 g4 g5 self = (s4, Waiting ev))
       ∧ (done s4 = true →
            result_thread ev g1 g2 g3 g4 g5 self
            = match _exception s5 with
              | Some e => (s5, Raised e)
              | None => (s6, Returned (_response s6))
              end))
  ∧ (_exception self = None → done s1 = false → done s2 = true →
       result_thread ev g1 g2 g3 g4 g5 self = (s4, Waiting ev)
       ∧ done s4 = true)
  ∧ result_thread ev [] [] [] [] [] self = result ev self.
Proof.
  cbv zeta. unfold result_thread.
  split; [|split; [|split; [|split]]].
  - by intros e ->.
  - intros -> ->. split; [done|]. apply response_resolution.
  - intros -> -> Hd2.
    pose proof (event_set_iff_done ev g3 _ Hd2) as Hiff. cbv zeta in Hiff.
    split; [done|]. split.
    + intros Hd4.
      destruct (event_is_set ev _); [|done].
      rewrite (proj1 Hiff eq_refl) in Hd4. discriminate Hd4.
    + intros Hd4. apply Hiff in Hd4. by rewrite Hd4.
  - intros -> -> Hd2. split.
    + by rewrite event_not_set_when_done.
    + by apply run_ops_done_mono.
  - unfold result. simpl. destruct (_exception self); [done|].
    by destruct (done self).
Qed.

Lemma result_among_threads_witness :
  result_thread 0 [] [OpSetDone] [OpAddResponse (VInt 1); OpSetDone] [] []
    Future__init__
  = (fst (run_ops [OpAddResponse (VInt 1); OpSetDone]
            (after (add_done_callback (CbEvent 0)
                      (fst (run_ops [OpSetDone]
                              (fst (run_ops [] Future__init__))))))),
     Waiting 0)
  ∧ result_thread 0 [] [] [OpAddResponse (VInt 1); OpSetDone] [] []
      Future__init__
    = (fst (run_ops [OpAddResponse (VInt 1); OpSetDone]
              (after (add_done_callback (CbEvent 0) Future__init__))),
       Returned (VInt 1)).
Proof.
  split.
  - apply (proj1 (proj2 (proj2 (proj2
             (result_among_threads 0 [] [OpSetDone]
                [OpAddResponse (VInt 1); OpSetDone] [] [] Future__init__))))
             eq_refl eq_refl eq_refl).
  - rewrite (proj2 (proj2 (proj1 (proj2 (proj2
               (result_among_threads 0 [] []
                  [OpAddResponse (VInt 1); OpSetDone] [] [] Future__init__)))
               eq_refl eq_refl eq_refl)) eq_refl).
    reflexivity.
Defined.

(** The lost wake-up on the path of a call: the caller's [result()]
    has tested [done], the sender thread reads [END] and runs
    [set_done()], the caller registers [_done] and waits.  The future
    is done with its response, and the call waits. *)
Example result_lost_wakeup :
  let x0 := Exchange Future__init__ [] [VInt 5; VStr END] true [] in
  let fed := future (snd (sender_run 5 "add" [] ∅ AtWhile x0)) in
  fed = fst (run_ops [OpAddResponse (VInt 5); OpSetDone] Future__init__)
  ∧ done fed = true
  ∧ _responses fed = [VInt 5]
  ∧ snd (result_thread 0 [] [OpAddResponse (VInt 5); OpSetDone] [] [] []
           Future__init__)
    = Waiting 0
  ∧ snd (result 0 fed) = Returned (VInt 5).
Proof. by vm_compute. Qed.

(** ** [Future.set_done] and [Future.cancel] *)

(** C5.  On a future that is done, [set_done()] fails its assertion,
    calls nothing and leaves the object as it was, [done] still true.
    On a future that is not done, it returns, [done] is true afterwards,
    and it has called each registered done-callback, once; a second
    [set_done()] then fails the assertion and [done] stays true. *)
Theorem set_done_once (self : Future) :
  (done self = true →
     how (set_done self) = Raises AssertionError
     ∧ invoked (set_done self) = []
     ∧ after (set_done self) = self
     ∧ done (after (set_done self)) = true)
  ∧ (done self = false →
       how (set_done self) = Returns
       ∧ done (after (set_done self)) = true
       ∧ invoked (set_done self) = CallDone <$> elements (_done_callbacks self)
       ∧ (∀ cb, CallDone cb ∈ invoked (set_done self)
                ↔ cb ∈ _done_callbacks self)
       ∧ NoDup (invoked (set_done self))
       ∧ how (set_done (after (set_done self))) = Raises AssertionError
       ∧ done (after (set_done (after (set_done self)))) = true).
Proof.
  split; intros Hd; unfold set_done; rewrite Hd; simpl.
  - by rewrite Hd.
  - repeat split; try done.
    + intros (cb' & [= ->] & Hin)%list_elem_of_fmap.
      by apply elem_of_elements.
    + intros Hin. apply list_elem_of_fmap_2. by apply elem_of_elements.
    + apply NoDup_fmap_2; [by intros ?? [=] | apply NoDup_elements].
Qed.

Lemma set_done_once_witness :
  how (set_done (after (set_done Future__init__))) = Raises AssertionError
  ∧ done (after (set_done (after (set_done Future__init__)))) = true
  ∧ how (set_done Future__init__) = Returns.
Proof.
  split; [|split].
  - apply (proj1 (set_done_once (after (set_done Future__init__)))).
    reflexivity.
  - apply (proj1 (set_done_once (after (set_done Future__init__)))).
    reflexivity.
  - apply (proj2 (set_done_once Future__init__)). reflexivity.
Defined.

Lemma apply_op_cancelled (o : op) (self : Future) :
  cancelled (after (apply_op o self)) = cancelled self.
Proof.
  destruct o; simpl; try done;
    unfold cancel, set_done, result, exception; simpl.
  - by destruct (done self).
  - by destruct (done self).
  - destruct (_exception self); [done|]. by destruct (done self).
  - by destruct (done self).
Qed.

Lemma deliver_cancelled (response : value) (fut : Future) :
  cancelled (after (deliver response fut)) = cancelled fut.
Proof.
  unfold deliver. destruct (is_END response).
  - apply (apply_op_cancelled OpSetDone).
  - destruct response; try done. simpl. by destruct (exc_is_Exception e).
Qed.

Lemma deliver_END_when_done (response : value) (fut : Future) :
  is_END response = true → done fut = true →
  deliver response fut = Eff fut [] (Raises AssertionError).
Proof.
  intros HE Hd. unfold deliver, set_done. by rewrite HE, Hd.
Qed.

(** C10 as stated fails when an exception is recorded.  The sender
    thread has read a response and a [TracedError] and not yet [END];
    the future is not done.  After [cancel()] the future is done, and
    [result()] does not return the response accumulated so far: it
    raises the recorded exception. *)
Lemma result_after_cancel_raises :
  let boom := ValueError "boom" in
  let x0 := Exchange Future__init__ [] [VInt 1; VTraced boom "tb"] true [] in
  let fut := future (snd (sender_run 4 "flaky" [] ∅ AtWhile x0)) in
  done fut = false
  ∧ _responses fut = [VInt 1]
  ∧ how (cancel fut) = Returns
  ∧ done (after (cancel fut)) = true
  ∧ result 0 (after (cancel fut))
    = (after (cancel fut), Raised (with_cause boom "tb")).
Proof. by vm_compute. Qed.

(** C10, amended.  [cancel()] calls [set_done()].  On a future that is
    not done it returns with [done] true and every registered
    done-callback called, once; the responses and the exception are
    those accumulated so far.  [result()] then does not wait, in
    whatever interleaving with other threads: called at once it raises
    the recorded exception when there is one, and otherwise returns the
    resolution of the responses accumulated so far.  On a future that
    is done, [cancel()] fails the assertion of [set_done].  And once
    [cancel()] has run, whatever else the threads do to the future, the
    [set_done()] the sender thread performs when it reads [END] fails
    that assertion: the thread ends there, the lock still held. *)
Theorem cancel_sets_done (self : Future) :
  (done self = false →
     how (cancel self) = Returns
     ∧ done (after (cancel self)) = true
     ∧ invoked (cancel self) = CallDone <$> elements (_done_callbacks self)
     ∧ (∀ cb, cb ∈ _done_callbacks self → CallDone cb ∈ invoked (cancel self))
     ∧ NoDup (invoked (cancel self))
     ∧ _responses (after (cancel self)) = _responses self
     ∧ _exception (after (cancel self)) = _exception self
     ∧ (∀ ev e, _exception self = Some e →
          result ev (after (cancel self)) = (after (cancel self), Raised e))
     ∧ (_exception self = None →
          ∀ ev, result ev (after (cancel self))
                = (after (cancel self), Returned (_response self)))
     ∧ (∀ ev ev' g1 g2 g3 g4 g5,
          snd (result_thread ev g1 g2 g3 g4 g5 (after (cancel self)))
          ≠ Waiting ev'))
  ∧ (done self = true → how (cancel self) = Raises AssertionError)
  ∧ (∀ os name args kwargs x rest,
       future x = fst (run_ops os (after (cancel self))) →
       response_queue x = VStr END :: rest →
       ∃ x', sender_step name args kwargs AtGet x
               = Some (Died AssertionError, x')
             ∧ future x' = future x
             ∧ response_queue x' = rest
             ∧ lock_held x' = lock_held x).
Proof.
  split; [|split].
  - intros Hd. unfold cancel, set_done. simpl. rewrite Hd. simpl.
    split; [done|]. split; [done|]. split; [done|]. split.
    { intros cb Hin. apply list_elem_of_fmap_2. by apply elem_of_elements. }
    split.
    { apply NoDup_fmap_2; [by intros ?? [=] | apply NoDup_elements]. }
    split; [done|]. split; [done|]. split.
    { intros ev e He. unfold result. simpl. by rewrite He. }
    split.
    { intros He ev. unfold result. simpl. by rewrite He. }
    intros ev ev' g1 g2 g3 g4 g5. unfold result_thread. simpl.
    destruct (_exception self); [done|].
    rewrite run_ops_done_mono by done. done.
  - intros Hd. unfold cancel, set_done. simpl. by rewrite Hd.
  - intros os name args kwargs x rest Hf Hq.
    assert (done (future x) = true) as Hd.
    { rewrite Hf. apply run_ops_done_mono.
      unfold cancel. apply set_done_after_done. }
    unfold sender_step. rewrite Hq.
    rewrite deliver_END_when_done by done. simpl. eauto.
Qed.

Lemma cancel_sets_done_witness :
  done (after (cancel (after (add_response (VInt 1) Future__init__)))) = true
  ∧ how (cancel (after (cancel Future__init__))) = Raises AssertionError
  ∧ fst <$> sender_step "f" [] ∅ AtGet
              (Exchange (after (cancel Future__init__)) [] [VStr END] true [])
    = Some (Died AssertionError).
Proof.
  split; [|split].
  - apply (proj1 (cancel_sets_done
                    (after (add_response (VInt 1) Future__init__)))).
    reflexivity.
  - apply (proj1 (proj2 (cancel_sets_done (after (cancel Future__init__))))).
    reflexivity.
  - destruct (proj2 (proj2 (cancel_sets_done Future__init__))
               [] "f"%string [] ∅
               (Exchange (after (cancel Future__init__)) [] [VStr END] true [])
               [] eq_refl eq_refl) as (x' & -> & _).
    reflexivity.
Defined.

(** ** Cancellation as the sender thread sees it *)

Section Cancelled.

Variables (name : string) (args : list value) (kwargs : gmap string value).

Lemma act_uncancelled mq0 s a :
  uncancelled name args kwargs mq0 s →
  uncancelled name args kwargs mq0 (act name args kwargs s a).
Proof.
  destruct s as [pc x]. intros [Hc Hq]. simpl in Hc, Hq.
  destruct a as [|o|response]; simpl.
  - destruct pc; simpl; try (by split).
    + destruct Hq as [[_ Hq]|[? _]]; [|done].
      destruct (lock_held x); split; simpl; try done.
      * by left.
      * right. by rewrite Hq.
    + destruct Hq as [[? _]|[_ Hq]]; [done|].
      destruct (done (future x)); [|rewrite Hc];
        split; simpl; try done; by right.
    + destruct Hq as [[? _]|[_ Hq]]; [done|].
      destruct (response_queue x) as [|response rest];
        split; simpl; try done.
      * by right.
      * by rewrite deliver_cancelled.
      * right. split; [|done]. by destruct (how _).
  - split; simpl; [by rewrite apply_op_cancelled | done].
  - by split.
Qed.

Lemma interleave_uncancelled mq0 moves s :
  uncancelled name args kwargs mq0 s →
  uncancelled name args kwargs mq0 (interleave name args kwargs moves s).
Proof.
  revert s. induction moves as [|a moves IH]; intros s Hs; [done|].
  simpl. apply IH. by apply act_uncancelled.
Qed.

End Cancelled.

(** With [cancelled] true on a future that is not done, the sender
    thread puts [CANCEL] on the message queue before it reads. *)
Lemma sender_puts_CANCEL_when_cancelled
    (name : string) (args : list value) (kwargs : gmap string value)
    (x : exchange) :
  done (future x) = false → cancelled (future x) = true →
  sender_step name args kwargs AtWhile x
  = Some (AtGet,
          Exchange (future x) (message_queue x ++ [MqStr CANCEL])
            (response_queue x) (lock_held x) (log x)).
Proof. intros Hd Hc. unfold sender_step. by rewrite Hd, Hc. Qed.

(** C4, on the code.  [cancel()] assigns the attribute [_cancelled] and
    leaves [cancelled], the attribute the sender thread reads, as it
    was.  So for the future of a proxied call, in every interleaving of
    the sender thread with the operations of other threads on the
    future ([cancel()] among them) and with the puts of the backend,
    [cancelled] stays false and the message queue gains nothing but the
    call's [Message]: no [CANCEL] is put. *)
Theorem cancel_never_reaches_sender :
  (∀ self, _cancelled (after (cancel self)) = Some true
           ∧ cancelled (after (cancel self)) = cancelled self)
  ∧ (∀ name args kwargs moves x,
       let s := interleave name args kwargs moves (proxy_call x) in
       cancelled (future (snd s)) = false
       ∧ (message_queue (snd s) = message_queue x
          ∨ message_queue (snd s)
            = message_queue x ++ [MqMessage (Build_Message name args kwargs)])).
Proof.
  split.
  - intros self. split; [|apply (apply_op_cancelled OpCancel)].
    unfold cancel, set_done. simpl. by destruct (done self).
  - intros name args kwargs moves x. simpl.
    destruct (interleave_uncancelled name args kwargs (message_queue x) moves
                (proxy_call x)) as [Hc Hq].
    + split; [done|]. by left.
    + split; [done|]. destruct Hq as [[_ ?]|[_ ?]]; eauto.
Qed.

(** The call in flight, [cancel()] by the caller, and the sender thread
    left to run: it ends without a [CANCEL] on the message queue. *)
Example cancel_in_flight :
  let s := interleave "countdown" [VInt 3] ∅
             [Sender; Sender; Caller OpCancel; Sender; Sender; Sender]
             (proxy_call (Exchange Future__init__ [] [] false [])) in
  cancelled (future (snd s)) = false
  ∧ _cancelled (future (snd s)) = Some true
  ∧ message_queue (snd s)
    = [MqMessage (Build_Message "countdown" [VInt 3] ∅)]
  ∧ fst s = AtGet.
Proof. by vm_compute. Qed.

(** ** The backend dispatch *)

Section BackendFacts.

Variable methods :
  string → option (list value → gmap string value → behaviour).
Variable format_exc : exn → string.

(** The loop over a generator puts every value it yields, whatever
    the message queue holds or receives. *)
Lemma emit_all ys sched q : fst (emit ys sched q) = ys.
Proof.
  revert sched q. induction ys as [|res ys IH]; intros sched q; [done|].
  simpl. specialize (IH (tl sched) (tail (q ++ hd [] sched))).
  destruct (emit ys _ _) as [out rest]. simpl in *. by rewrite IH.
Qed.

Lemma receive_generator message ys fin sched q :
  dispatch methods message = BGenerator ys fin →
  pushed (_receive methods format_exc message sched q)
  = ys ++ match fin with
          | GenStop => [VStr END]
          | GenRaise e =>
              if exc_is_Exception e
              then [VTraced e (format_exc e); VStr END] else []
          end.
Proof.
  intros Hm. unfold _receive. rewrite Hm.
  pose proof (emit_all ys sched q) as Hall.
  destruct (emit ys sched q) as [out [q' sched']]. simpl in Hall. subst out.
  destruct fin as [|e]; [done|]. unfold handle.
  destruct (exc_is_Exception e); simpl; [done|]. by rewrite app_nil_r.
Qed.


End BackendFacts.

(** C3, on the code.  In [_receive] the item that the non-blocking
    [get] takes off the message queue is not bound to [extra_message],
    which stays [None] and never equals [CANCEL].  So the values a
    generator yields are all put on the response queue, in order,
    whatever the message queue holds before each of them; with [CANCEL]
    waiting on the queue, [countdown(3)] still delivers 3, 2, 1 and
    [END], and the [CANCEL] is gone from the queue. *)
Theorem generator_not_cancelled :
  (∀ methods format_exc message ys fin sched q,
     dispatch methods message = BGenerator ys fin →
     ys `prefix_of` pushed (_receive methods format_exc message sched q))
  ∧ (let r := _receive example_methods example_format_exc
                (MqMessage (Build_Message "countdown" [VInt 3] ∅))
                [] [MqStr CANCEL] in
     pushed r = [VInt 3; VInt 2; VInt 1; VStr END]
     ∧ mq_after r = []
     ∧ escaped r = None).
Proof.
  split.
  - intros methods format_exc message ys fin sched q Hm.
    rewrite (receive_generator _ _ _ _ _ _ _ Hm). by apply prefix_app_r.
  - by vm_compute.
Qed.

Lemma generator_not_cancelled_witness :
  countdown 2
  `prefix_of` pushed (_receive example_methods example_format_exc
                        (MqMessage (Build_Message "countdown" [VInt 2] ∅))
                        [[MqStr CANCEL]] []).
Proof.
  apply (proj1 generator_not_cancelled example_methods example_format_exc
           (MqMessage (Build_Message "countdown" [VInt 2] ∅))
           (countdown 2) GenStop).
  reflexivity.
Defined.




(** After [boom()] the loop serves [add(2, 3)]. *)
Example boom_then_add :
  _backend_loop example_methods example_format_exc 5 []
    [MqMessage (Build_Message "boom" [] ∅);
     MqMessage (Build_Message "add" [VInt 2; VInt 3] ∅)]
  = ([VTraced (ValueError "boom") (example_format_exc (ValueError "boom"));
      VStr END; VInt 5; VStr END],
     LoopBlocked).
Proof. by vm_compute. Qed.

(** ** The sender thread's loop *)

Section SenderLoop.

Variables (name : string) (args : list value) (kwargs : gmap string value).

Lemma deliver_plain response fut :
  plain response = true → deliver response fut = add_response response fut.
Proof.
  unfold plain, deliver. intros [HE Hk]%andb_true_iff.
  apply negb_true_iff in HE. rewrite HE.
  destruct response; try done. apply negb_true_iff in Hk. by rewrite Hk.
Qed.

(** One turn of the loop on a future that is not done: the test, the
    [CANCEL] if [cancelled], the [get], the chain. *)
Lemma sender_turn fuel x response rest :
  done (future x) = false → response_queue x = response :: rest →
  sender_run (S (S fuel)) name args kwargs AtWhile x
  = sender_run fuel name args kwargs
      (match how (deliver response (future x)) with
       | Returns => AtWhile
       | Raises err => Died err
       end)
      (Exchange (after (deliver response (future x)))
         (message_queue x
            ++ (if cancelled (future x) then [MqStr CANCEL] else []))
         rest (lock_held x)
         (log x ++ invoked (deliver response (future x)))).
Proof.
  intros Hd Hq. cbn [sender_run]. unfold sender_step at 1. rewrite Hd.
  destruct (cancelled (future x)); cbn [sender_run];
    unfold sender_step at 1; cbn [response_queue future message_queue
      lock_held log]; rewrite Hq; [done|].
  rewrite app_nil_r. by destruct x.
Qed.

(** The loop over responses that are plain values: each is appended,
    in order; the exception slot and [done] are not touched. *)
Lemma sender_run_plain vs : ∀ fuel x rest,
  Forall (λ v, plain v = true) vs →
  done (future x) = false → response_queue x = vs ++ rest →
  ∃ x', sender_run (2 * length vs + fuel) name args kwargs AtWhile x
        = sender_run fuel name args kwargs AtWhile x'
      ∧ _responses (future x') = _responses (future x) ++ vs
      ∧ _exception (future x') = _exception (future x)
      ∧ done (future x') = false
      ∧ response_queue x' = rest
      ∧ lock_held x' = lock_held x.
Proof.
  induction vs as [|v vs IH]; intros fuel x rest Hp Hd Hq.
  - exists x. simpl in *. by rewrite app_nil_r.
  - apply Forall_cons in Hp as [Hv Hp].
    replace (2 * length (v :: vs) + fuel)
      with (S (S (2 * length vs + fuel))) by (simpl; lia).
    rewrite (sender_turn _ x v (vs ++ rest)) by done.
    rewrite (deliver_plain v) by done. cbn [how add_response after invoked].
    edestruct (IH fuel) as (x' & Hrun & Hr & He & Hd' & Hq' & Hl);
      [exact Hp | | | exists x'; split; [exact Hrun|]].
    + exact Hd.
    + reflexivity.
    + cbn in Hr, He, Hl. rewrite Hr, He, Hl, <- app_assoc. done.
Qed.

End SenderLoop.




(** ** The state of a [Future] over time *)

(** C8 as stated fails on the exception slot.  [set_exception()] on a
    future that holds an exception replaces it, and [add_response()] on
    such a future appends the response.  The sender thread makes both
    happen for [flaky()]: it records the yielded [ValueError] object as
    the exception, then delivers the response 1, then replaces the
    exception by the one the generator raised. *)
Lemma exception_slot_unguarded :
  let warn := ValueError "warn" in
  let boom := ValueError "boom" in
  let failed := after (set_exception warn Future__init__) in
  _exception failed = Some warn
  ∧ _exception (after (set_exception boom failed)) = Some boom
  ∧ _responses (after (add_response (VInt 1) failed)) = [VInt 1]
  ∧ (let r := _receive example_methods example_format_exc
                (MqMessage (Build_Message "flaky" [] ∅)) [] [] in
     let x0 := Exchange Future__init__ [] (pushed r) true [] in
     let at_ n := future (snd (sender_run n "flaky" [] ∅ AtWhile x0)) in
     pushed r = [VExc warn; VInt 1;
                 VTraced boom (example_format_exc boom); VStr END]
     ∧ _exception (at_ 2) = Some warn ∧ _responses (at_ 2) = []
     ∧ _exception (at_ 4) = Some warn ∧ _responses (at_ 4) = [VInt 1]
     ∧ _exception (at_ 6)
       = Some (with_cause boom (example_format_exc boom))
     ∧ done (at_ 9) = true).
Proof. by vm_compute. Qed.

(** C8, amended.  [done]: every operation keeps it true once it is
    true; it becomes true by [set_done()] or [cancel()] only, and these
    fail the assertion on a done future.  Responses: [add_response()]
    appends its value at the end, whatever the state of the future, and
    no other operation changes them.  Exception: [set_exception()] sets
    it, whatever it held, and no other operation changes it.  When the
    responses the sender thread reads for a call are plain values, then
    a [TracedError], then [END]: the plain values are appended in order
    with the exception untouched, then the exception is set to that of
    the [TracedError], and from then on to the end of the loop nothing
    is appended and the exception is not set again; the future is
    done. *)
Theorem future_invariants :
  (∀ o self,
     (done self = true → done (after (apply_op o self)) = true)
     ∧ (done self = true → o = OpSetDone ∨ o = OpCancel →
          how (apply_op o self) = Raises AssertionError)
     ∧ (done self = false → done (after (apply_op o self)) = true →
          o = OpSetDone ∨ o = OpCancel)
     ∧ _responses self `prefix_of` _responses (after (apply_op o self))
     ∧ ((∀ v, o ≠ OpAddResponse v) →
          _responses (after (apply_op o self)) = _responses self)
     ∧ ((∀ e, o ≠ OpSetException e) →
          _exception (after (apply_op o self)) = _exception self))
  ∧ (∀ v self,
       how (add_response v self) = Returns
       ∧ _responses (after (add_response v self)) = _responses self ++ [v]
       ∧ _exception (after (add_response v self)) = _exception self
       ∧ done (after (add_response v self)) = done self)
  ∧ (∀ e self,
       how (set_exception e self) = Returns
       ∧ _exception (after (set_exception e self)) = Some e
       ∧ _responses (after (set_exception e self)) = _responses self
       ∧ done (after (set_exception e self)) = done self)
  ∧ (∀ name args kwargs x vs base trace rest,
       done (future x) = false →
       Forall (λ v, plain v = true) vs →
       response_queue x = vs ++ VTraced base trace :: VStr END :: rest →
       ∃ x1 x2 x3,
         sender_run (2 * length vs) name args kwargs AtWhile x = (AtWhile, x1)
         ∧ _responses (future x1) = _responses (future x) ++ vs
         ∧ _exception (future x1) = _exception (future x)
         ∧ done (future x1) = false
         ∧ sender_run (2 * length vs + 2) name args kwargs AtWhile x
           = (AtWhile, x2)
         ∧ _responses (future x2) = _responses (future x1)
         ∧ _exception (future x2) = Some (with_cause base trace)
         ∧ done (future x2) = false
         ∧ sender_run (2 * length vs + 5) name args kwargs AtWhile x
           = (Released, x3)
         ∧ _responses (future x3) = _responses (future x2)
         ∧ _exception (future x3) = _exception (future x2)
         ∧ done (future x3) = true
         ∧ response_queue x3 = rest).
Proof.
  split; [|split; [|split]].
  - intros o self. split; [apply apply_op_done_mono|].
    split; [|split; [|split; [apply apply_op_responses|split]]].
    + intros Hd [->| ->]; simpl; unfold cancel, set_done; simpl;
        by rewrite Hd.
    + intros Hd. destruct o; simpl; eauto;
        unfold result, exception; simpl; rewrite ?Hd; simpl; try congruence.
      destruct (_exception self); simpl; congruence.
    + intros Hne. destruct o; simpl; try done;
        unfold cancel, set_done, result, exception; simpl.
      * by destruct (Hne response).
      * by destruct (done self).
      * by destruct (done self).
      * destruct (_exception self) eqn:E; [done|]. by destruct (done self).
      * by destruct (done self).
    + intros Hne. destruct o; simpl; try done;
        unfold cancel, set_done, result, exception; simpl.
      * by destruct (Hne e).
      * by destruct (done self).
      * by destruct (done self).
      * destruct (_exception self) eqn:E; [done|]. by destruct (done self).
      * by destruct (done self).
  - done.
  - done.
  - intros name args kwargs x vs base trace rest Hd Hp Hq.
    destruct (sender_run_plain name args kwargs vs 0 x
                (VTraced base trace :: VStr END :: rest) Hp Hd Hq)
      as (x1 & H0 & Hr & He & Hd1 & Hq1 & Hl).
    destruct (sender_run_plain name args kwargs vs 2 x
                (VTraced base trace :: VStr END :: rest) Hp Hd Hq)
      as (x1' & H2 & Hr' & He' & Hd1' & Hq1' & Hl').
    destruct (sender_run_plain name args kwargs vs 5 x
                (VTraced base trace :: VStr END :: rest) Hp Hd Hq)
      as (x1'' & H5 & Hr'' & He'' & Hd1'' & Hq1'' & Hl'').
    rewrite Nat.add_0_r in H0. simpl in H0.
    rewrite (sender_turn _ _ _ 0 x1' (VTraced base trace) (VStr END :: rest))
      in H2 by done.
    cbn [deliver is_END set_exception how after invoked sender_run] in H2.
    rewrite (sender_turn _ _ _ 3 x1'' (VTraced base trace)
               (VStr END :: rest)) in H5 by done.
    cbn [deliver is_END set_exception how after invoked] in H5.
    rewrite sender_turn with (response := VStr END) (rest := rest) in H5;
      [|done|done].
    unfold deliver, set_done in H5. cbn in H5. rewrite Hd1'' in H5.
    cbn in H5.
    eexists _, _, _. split; [exact H0|]. split; [exact Hr|].
    split; [exact He|]. split; [exact Hd1|].
    split; [exact H2|]. cbn. split; [by rewrite Hr', Hr|].
    split; [done|]. split; [done|].
    split; [exact H5|]. cbn. by rewrite Hr''.
Qed.

Lemma future_invariants_witness :
  how (apply_op OpSetDone (after (set_done Future__init__)))
  = Raises AssertionError
  ∧ ∃ x3, sender_run 7 "f" [] ∅ AtWhile
            (Exchange Future__init__ []
               [VInt 1; VTraced (ValueError "boom") "tb"; VStr END] true [])
          = (Released, x3)
        ∧ _responses (future x3) = [VInt 1]
        ∧ done (future x3) = true.
Proof.
  split.
  - apply (proj1 (proj2 (proj1 future_invariants OpSetDone
                           (after (set_done Future__init__)))));
      [reflexivity | by left].
  - destruct (proj2 (proj2 (proj2 future_invariants)) "f"%string [] ∅
                (Exchange Future__init__ []
                   [VInt 1; VTraced (ValueError "boom") "tb"; VStr END]
                   true [])
                [VInt 1] (ValueError "boom") "tb"%string [] eq_refl)
      as (x1 & x2 & x3 & _ & H1 & _ & _ & _ & H2 & _ & _ & H3 & H4 & _
          & H5 & _).
    + repeat constructor.
    + reflexivity.
    + exists x3. split; [exact H3|]. split; [|exact H5].
      rewrite H4, H2, H1. reflexivity.
Defined.

(** ** [Actor._setup] *)

Section Setup.

Implicit Types (self : gmap string attr) (name : string).

Lemma remote_insert_ne self a name v :
  a ≠ name → remote (<[a := v]> self) name = remote self name.
Proof. intros Hne. unfold remote. by rewrite lookup_insert_ne. Qed.

Lemma remote_insert_proxy self name :
  remote self name = true → remote (<[name := Proxy name]> self) name = true.
Proof.
  unfold remote. rewrite lookup_insert_eq.
  intros [[_ H1]%andb_true_iff H2]%andb_true_iff. simpl. by rewrite H1, H2.
Qed.

Lemma elem_of_dir self name : name ∈ dir self ↔ is_Some (self !! name).
Proof.
  unfold dir. rewrite list_elem_of_fmap. split.
  - intros ([k a] & -> & Hin). apply elem_of_map_to_list in Hin. by exists a.
  - intros [a Ha]. exists (name, a). split; [done|].
    by apply elem_of_map_to_list.
Qed.

(** The loop of [_setup] over any list of names. *)
Lemma setup_loop_lookup (names : list string) : ∀ self name,
  foldl (λ self2 n, if remote self2 n then <[n := Proxy n]> self2 else self2)
        self names !! name
  = if decide (name ∈ names)
    then (if remote self name then Some (Proxy name) else self !! name)
    else self !! name.
Proof.
  induction names as [|a names IH]; intros self name; [done|].
  cbn [foldl]. rewrite IH. destruct (decide (a = name)) as [->|Hne].
  - rewrite (decide_True (P := name ∈ name :: names)) by set_solver.
    destruct (remote self name) eqn:Hr.
    + rewrite remote_insert_proxy, lookup_insert_eq by done.
      by destruct (decide _).
    + rewrite Hr. by destruct (decide _).
  - assert (remote (if remote self a then <[a:=Proxy a]> self else self) name
            = remote self name) as ->.
    { destruct (remote self a); [by apply remote_insert_ne | done]. }
    assert ((if remote self a then <[a:=Proxy a]> self else self) !! name
            = self !! name) as ->.
    { destruct (remote self a); [by rewrite lookup_insert_ne | done]. }
    destruct (decide (name ∈ names)) as [Hin|Hnin].
    + rewrite decide_True; [done|]. by apply list_elem_of_further.
    + rewrite decide_False; [done|].
      intros [?|?]%elem_of_cons; congruence.
Qed.

(** What a frontend instance finds under each name after [_setup]. *)
Lemma setup_lookup self name :
  _setup FRONTEND self !! name
  = if remote (<["_lock"%string := Data]> self) name
    then Some (Proxy name)
    else <["_lock"%string := Data]> self !! name.
Proof.
  unfold _setup. rewrite setup_loop_lookup.
  destruct (decide _) as [Hin|Hnin]; [done|].
  rewrite elem_of_dir, <- eq_None_not_Some in Hnin.
  unfold remote. by rewrite Hnin.
Qed.

End Setup.

(** C7, on the code.  [_protected_methods] lists [start], [close],
    [is_alive], [can_use] and [shared]; [shared_close] is not in it.  A
    frontend instance keeps what it had under each of the five names,
    and every other callable whose name does not start with an
    underscore is replaced by its proxy, [shared_close] among them. *)
Theorem setup_replaces_shared_close (self : gmap string attr) :
  (∀ name, name ∈ _protected_methods →
     _setup FRONTEND self !! name = self !! name)
  ∧ (∀ name, callable (self !! name) = true →
       startswith "_" name = false → name ∉ _protected_methods →
       _setup FRONTEND self !! name = Some (Proxy name))
  ∧ (self !! "shared_close"%string = Some Method →
       _setup FRONTEND self !! "shared_close"%string
       = Some (Proxy "shared_close"))
  ∧ _setup FRONTEND (members Actor_class) !! "shared_close"%string
    = Some (Proxy "shared_close")
  ∧ _setup BACKEND self = self.
Proof.
  split; [|split; [|split; [|split]]].
  - intros name Hin. rewrite setup_lookup.
    assert ("_lock"%string ≠ name) as Hne.
    { intros <-. revert Hin. by vm_compute. }
    unfold remote. rewrite (bool_decide_eq_false_2 (name ∉ _)) by tauto.
    by rewrite andb_false_r, lookup_insert_ne.
  - intros name Hc Hs Hp. rewrite setup_lookup.
    assert ("_lock"%string ≠ name) as Hne.
    { intros <-. by vm_compute in Hs. }
    unfold remote. rewrite lookup_insert_ne, Hc, Hs by done.
    by rewrite bool_decide_eq_true_2.
  - intros Hm. rewrite setup_lookup. unfold remote.
    rewrite lookup_insert_ne, Hm by done. by vm_compute.
  - by vm_compute.
  - done.
Qed.

Lemma setup_replaces_shared_close_witness :
  _setup FRONTEND (members Generator_class) !! "shared_close"%string
  = Some (Proxy "shared_close")
  ∧ _setup FRONTEND (members Generator_class) !! "shared"%string
    = members Generator_class !! "shared"%string
  ∧ _setup FRONTEND (members Generator_class) !! "prompt_to_image"%string
    = Some (Proxy "prompt_to_image").
Proof.
  split; [|split].
  - apply (proj1 (proj2 (proj2 (setup_replaces_shared_close
                                  (members Generator_class))))).
    by vm_compute.
  - apply (proj1 (setup_replaces_shared_close (members Generator_class))).
    by vm_compute.
  - apply (proj1 (proj2 (setup_replaces_shared_close
                           (members Generator_class)))).
    + by vm_compute.
    + by vm_compute.
    + by vm_compute.
Defined.

(** ** The shared instance *)

Lemma shared_instance_after_init (cls : py_class) (ctx : ActorContext)
    (message_queue response_queue : nat) (h : heap) :
  _shared_instance cls
    (snd (Actor__init__ cls ctx message_queue response_queue h))
  = Some (next_id h).
Proof.
  unfold _shared_instance, Actor__init__. simpl. by rewrite lookup_insert_eq.
Qed.

Lemma construct_all_other_classes
    (later : list (py_class * ActorContext * nat * nat)) (h : heap)
    (c : string) :
  Forall (λ k, cname k.1.1.1 ≠ c) later →
  slots (construct_all later h) !! c = slots h !! c.
Proof.
  revert h. induction later as [|k later IH]; intros h Hne; [done|].
  apply Forall_cons in Hne as [Hk Hne]. unfold construct_all. cbn [foldl].
  fold (construct_all later
          (snd (Actor__init__ k.1.1.1 k.1.1.2 k.1.2 k.2 h))).
  rewrite IH by done. unfold Actor__init__. simpl.
  by rewrite lookup_insert_ne.
Qed.

(** C9.  [Actor.__init__], in either context and with whatever queues,
    stores the new object in the [_shared_instance] entry of the
    object's class, replacing what the entry held, and leaves the
    entries of the other classes as they were.  [shared()] on that
    class then returns this object and constructs nothing, also after
    any number of constructions of objects of other classes; after a
    later construction of the same class it returns the later object,
    not the earlier one. *)
Theorem init_overwrites_shared_instance (cls : py_class) (h : heap) :
  (∀ ctx message_queue response_queue,
     let self := fst (Actor__init__ cls ctx message_queue response_queue h) in
     let h' := snd (Actor__init__ cls ctx message_queue response_queue h) in
     self = next_id h
     ∧ slots h' !! cname cls = Some (Some self)
     ∧ (∀ c, c ≠ cname cls → slots h' !! c = slots h !! c)
     ∧ (context <$> objects h' !! self) = Some ctx
     ∧ _shared_instance cls h' = Some self
     ∧ shared cls h' = Some (self, h'))
  ∧ (∀ ctx1 mq1 rq1 ctx2 mq2 rq2,
       let first := Actor__init__ cls ctx1 mq1 rq1 h in
       let second := Actor__init__ cls ctx2 mq2 rq2 (snd first) in
       fst second ≠ fst first
       ∧ shared cls (snd second) = Some (fst second, snd second))
  ∧ (∀ ctx mq rq later,
       Forall (λ k, cname k.1.1.1 ≠ cname cls) later →
       let self := fst (Actor__init__ cls ctx mq rq h) in
       let h' := construct_all later (snd (Actor__init__ cls ctx mq rq h)) in
       _shared_instance cls h' = Some self
       ∧ shared cls h' = Some (self, h')
       ∧ next_id h' = S self + length later).
Proof.
  split; [|split].
  - intros ctx mq rq. cbv zeta.
    pose proof (shared_instance_after_init cls ctx mq rq h) as Hs.
    split; [done|]. split; [simpl; by rewrite lookup_insert_eq|].
    split; [intros c Hc; simpl; by rewrite lookup_insert_ne|].
    split; [simpl; by rewrite lookup_insert_eq|].
    split; [done|]. unfold shared. by rewrite Hs.
  - intros ctx1 mq1 rq1 ctx2 mq2 rq2. cbv zeta. split.
    + simpl. lia.
    + unfold shared. by rewrite shared_instance_after_init.
  - intros ctx mq rq later Hne. cbv zeta.
    assert (_shared_instance cls
              (construct_all later (snd (Actor__init__ cls ctx mq rq h)))
            = Some (next_id h)) as Hs.
    { unfold _shared_instance. cbn [class_lookup].
      rewrite construct_all_other_classes by done.
      unfold Actor__init__. simpl. by rewrite lookup_insert_eq. }
    split; [exact Hs|]. split; [unfold shared; by rewrite Hs|].
    clear Hs Hne.
    assert (∀ h0, next_id (construct_all later h0)
                  = next_id h0 + length later) as Hn.
    { induction later as [|k later IH]; intros h0; [simpl; lia|].
      unfold construct_all. cbn [foldl].
      fold (construct_all later
              (snd (Actor__init__ k.1.1.1 k.1.1.2 k.1.2 k.2 h0))).
      rewrite IH. simpl. lia. }
    rewrite Hn. simpl. lia.
Qed.

Lemma init_overwrites_shared_instance_witness :
  (fst <$> shared Generator_class
             (construct_all [(Actor_class, FRONTEND, 5, 6);
                             (Actor_class, BACKEND, 7, 8)]
                (snd (Actor__init__ Generator_class BACKEND 3 4 heap0))))
  = Some 0.
Proof.
  destruct (proj2 (proj2 (init_overwrites_shared_instance Generator_class
                            heap0))
              BACKEND 3 4
              [(Actor_class, FRONTEND, 5, 6); (Actor_class, BACKEND, 7, 8)])
    as (_ & -> & _).
  - repeat constructor; by vm_compute.
  - reflexivity.
Defined.

(** A subclass without an object of its own finds the entry of its
    base class: after [Actor(...)], [Generator.shared()] returns the
    [Actor] object; after [Generator(...)] and then [Actor(...)] it
    returns the [Generator] object. *)
Example shared_reads_the_class_entry :
  (fst <$> shared Generator_class
             (snd (Actor__init__ Actor_class FRONTEND 5 6 heap0)))
  = Some 0
  ∧ (fst <$> shared Generator_class
               (snd (Actor__init__ Actor_class FRONTEND 5 6
                       (snd (Actor__init__ Generator_class FRONTEND 3 4
                               heap0)))))
    = Some 0
  ∧ (fst <$> shared Actor_class
               (snd (Actor__init__ Actor_class FRONTEND 5 6
                       (snd (Actor__init__ Generator_class FRONTEND 3 4
                               heap0)))))
    = Some 1.
Proof. by vm_compute. Qed.

(** A backend object constructed after the shared frontend object takes
    its place. *)
Example backend_becomes_shared :
  let h1 := snd <$> shared Generator_class heap0 in
  let h2 := (λ h, snd (Actor__init__ Generator_class BACKEND 7 8 h)) <$> h1 in
  (fst <$> (h1 ≫= shared Generator_class)) = Some 0
  ∧ (fst <$> (h2 ≫= shared Generator_class)) = Some 1
  ∧ (h2 ≫= λ h, context <$> objects h !! 1) = Some BACKEND.
Proof. by vm_compute. Qed.

(** * Further properties of [actor.py] *)

(** ** [Future.exception] and the callbacks *)



Lemma run_ops_app (os1 os2 : list op) (self : Future) :
  run_ops (os1 ++ os2) self
  = (fst (run_ops os2 (fst (run_ops os1 self))),
     snd (run_ops os1 self) ++ snd (run_ops os2 (fst (run_ops os1 self)))).
Proof.
  revert self. induction os1 as [|o os1 IH]; intros self.
  - simpl. by destruct (run_ops os2 self).
  - rewrite <- app_comm_cons, !run_ops_cons, IH. simpl.
    by rewrite app_assoc.
Qed.

(** X2.  Responses added one after the other are kept in the order
    they were added, after those already there; for each of them, in
    that order, every registered response callback is called with it,
    once; nothing else of the future changes. *)
Theorem add_responses_in_order (vs : list value) (self : Future) :
  let r := run_ops (OpAddResponse <$> vs) self in
  _responses (fst r) = _responses self ++ vs
  ∧ snd r = vs ≫= (λ v, (λ cb, CallResponse cb v)
                          <$> elements (_response_callbacks self))
  ∧ _exception (fst r) = _exception self
  ∧ done (fst r) = done self
  ∧ _response_callbacks (fst r) = _response_callbacks self
  ∧ _done_callbacks (fst r) = _done_callbacks self.
Proof.
  cbv zeta. revert self. induction vs as [|v vs IH]; intros self.
  - simpl. by rewrite app_nil_r.
  - rewrite fmap_cons, run_ops_cons.
    destruct (IH (after (apply_op (OpAddResponse v) self)))
      as (Hr & Hl & He & Hd & Hrc & Hdc).
    simpl in *. rewrite Hr, Hl, He, Hd, Hrc, Hdc.
    by rewrite <- app_assoc.
Qed.

(** X3.  The callbacks of a future are a set: registering a callback
    again changes nothing, the order of two registrations does not
    matter, and [set_done()] calls a callback registered twice once. *)
Theorem callback_registration_is_a_set (cb cb' : callback) (self : Future) :
  after (add_done_callback cb (after (add_done_callback cb self)))
  = after (add_done_callback cb self)
  ∧ after (add_done_callback cb (after (add_done_callback cb' self)))
    = after (add_done_callback cb' (after (add_done_callback cb self)))
  ∧ after (add_response_callback cb (after (add_response_callback cb self)))
    = after (add_response_callback cb self)
  ∧ (done self = false →
       let calls :=
         invoked (set_done
                    (after (add_done_callback cb
                              (after (add_done_callback cb self))))) in
       CallDone cb ∈ calls ∧ NoDup calls).
Proof.
  split; [|split; [|split]].
  - unfold add_done_callback. simpl. f_equal.
    by rewrite (assoc_L (∪)), union_idemp_L.
  - unfold add_done_callback. simpl. f_equal.
    by rewrite !(assoc_L (∪)), (comm_L (∪) {[cb]}).
  - unfold add_response_callback. simpl. f_equal.
    by rewrite (assoc_L (∪)), union_idemp_L.
  - intros Hd. unfold set_done. simpl. rewrite Hd. simpl. split.
    + apply list_elem_of_fmap_2, elem_of_elements.
      apply elem_of_union_l. by apply elem_of_singleton.
    + apply NoDup_fmap_2; [by intros ?? [=] | apply NoDup_elements].
Qed.

Lemma callback_registration_is_a_set_witness :
  NoDup (invoked (set_done
                    (after (add_done_callback (CbClient 4)
                              (after (add_done_callback (CbClient 4)
                                        Future__init__)))))).
Proof.
  apply (proj2 (proj2 (proj2 (callback_registration_is_a_set
                                (CbClient 4) (CbClient 4) Future__init__)))).
  reflexivity.
Defined.

Lemma apply_op_response_callbacks (o : op) (self : Future) :
  _response_callbacks self ⊆ _response_callbacks (after (apply_op o self)).
Proof.
  destruct o; simpl; try done;
    unfold cancel, set_done, result, exception; simpl.
  - by destruct (done self).
  - by destruct (done self).
  - apply union_subseteq_r.
  - destruct (_exception self); [done|]. by destruct (done self).
  - by destruct (done self).
Qed.

Lemma apply_op_calls_response (o : op) (self : Future) (cb : callback)
    (v : value) :
  CallResponse cb v ∈ invoked (apply_op o self) → cb ∈ _response_callbacks self.
Proof.
  destruct o; simpl; unfold cancel, set_done; simpl;
    try (intros H; by apply elem_of_nil in H).
  - intros (cb' & [= -> _] & Hin)%list_elem_of_fmap.
    by apply elem_of_elements.
  - destruct (done self); simpl.
    + intros H; by apply elem_of_nil in H.
    + by intros (cb' & [=] & _)%list_elem_of_fmap.
  - destruct (done self); simpl.
    + intros H; by apply elem_of_nil in H.
    + by intros (cb' & [=] & _)%list_elem_of_fmap.
Qed.

Lemma run_ops_callbacks_mono (os : list op) (self : Future) :
  _response_callbacks self ⊆ _response_callbacks (fst (run_ops os self))
  ∧ _done_callbacks self ⊆ _done_callbacks (fst (run_ops os self)).
Proof.
  revert self. induction os as [|o os IH]; intros self; [done|].
  rewrite run_ops_cons. simpl.
  destruct (IH (after (apply_op o self))) as [Hr Hd]. split.
  - etrans; [apply (apply_op_response_callbacks o)|done].
  - etrans; [apply (apply_op_done_callbacks o)|done].
Qed.

(** X4.  Whatever is done to a future, the callbacks it calls are
    registered response callbacks and registered done-callbacks.  A
    callback that was registered with [add_exception_callback] only is
    never called, whether or not an exception is set. *)
Theorem exception_callbacks_never_called (os : list op) (self : Future)
    (cb : callback) :
  cb ∉ _response_callbacks (fst (run_ops os self)) →
  cb ∉ _done_callbacks (fst (run_ops os self)) →
  ∀ c, c ∈ snd (run_ops os self) →
       c ≠ CallDone cb ∧ ∀ v, c ≠ CallResponse cb v.
Proof.
  revert self. induction os as [|o os IH]; intros self Hr Hd c Hc.
  - by apply elem_of_nil in Hc.
  - rewrite run_ops_cons in Hr, Hd, Hc. simpl in Hr, Hd, Hc.
    apply elem_of_app in Hc as [Hc|Hc]; [|by apply (IH _ Hr Hd)].
    destruct (run_ops_callbacks_mono os (after (apply_op o self)))
      as [Hmr Hmd].
    split.
    + intros ->. apply apply_op_calls_done in Hc as (_ & _ & Hin).
      apply Hd, Hmd. by apply (apply_op_done_callbacks o).
    + intros v ->. apply apply_op_calls_response in Hc.
      apply Hr, Hmr. by apply (apply_op_response_callbacks o).
Qed.

Lemma exception_callbacks_never_called_witness :
  CallDone (CbClient 2) ∈ snd (run_ops [OpAddExceptionCallback (CbClient 1);
                                        OpAddDoneCallback (CbClient 2);
                                        OpSetException AssertionError;
                                        OpSetDone]
                                 Future__init__)
  ∧ (CallDone (CbClient 2) ≠ CallDone (CbClient 1)
     ∧ ∀ v, CallDone (CbClient 2) ≠ CallResponse (CbClient 1) v).
Proof.
  assert (CallDone (CbClient 2)
          ∈ snd (run_ops [OpAddExceptionCallback (CbClient 1);
                          OpAddDoneCallback (CbClient 2);
                          OpSetException AssertionError; OpSetDone]
                   Future__init__)) as Hin.
  { vm_compute. constructor. }
  split; [exact Hin|].
  apply (exception_callbacks_never_called
           [OpAddExceptionCallback (CbClient 1);
            OpAddDoneCallback (CbClient 2);
            OpSetException AssertionError; OpSetDone]
           Future__init__ (CbClient 1)); [| |exact Hin].
  - vm_compute. intros H. inversion H.
  - vm_compute. intros H. inversion H.
Defined.

(** X5.  Once a future is done, no done-callback is called any more: a
    callback registered after completion is never called, whatever is
    done to the future afterwards, while [result()] and [exception()]
    on the done future end at once. *)
Theorem late_done_callback_never_called (os : list op) (self : Future)
    (cb : callback) :
  done self = true →
  (∀ cb', CallDone cb' ∉ snd (run_ops (OpAddDoneCallback cb :: os) self))
  ∧ cb ∈ _done_callbacks (fst (run_ops (OpAddDoneCallback cb :: os) self))
  ∧ (∀ ev, snd (result ev self) ≠ Waiting ev)
  ∧ (∀ ev, snd (exception ev self) ≠ Waiting ev).
Proof.
  intros Hd. split; [|split; [|split]].
  - intros cb'. by apply run_ops_no_call_when_done.
  - rewrite run_ops_cons. simpl.
    apply (proj2 (run_ops_callbacks_mono os _)). simpl.
    apply elem_of_union_l. by apply elem_of_singleton.
  - intros ev. rewrite result_when_done by done. simpl.
    unfold result_resume. by destruct (_exception self).
  - intros ev. unfold exception. by rewrite Hd.
Qed.

Lemma late_done_callback_never_called_witness :
  CbClient 9
  ∈ _done_callbacks
      (fst (run_ops [OpAddDoneCallback (CbClient 9); OpCancel; OpSetDone]
              (after (set_done Future__init__))))
  ∧ CallDone (CbClient 9)
    ∉ snd (run_ops [OpAddDoneCallback (CbClient 9); OpCancel; OpSetDone]
             (after (set_done Future__init__))).
Proof.
  destruct (late_done_callback_never_called [OpCancel; OpSetDone]
              (after (set_done Future__init__)) (CbClient 9) eq_refl)
    as (Hnever & Hin & _).
  split; [exact Hin | exact (Hnever (CbClient 9))].
Defined.

(** ** A proxied call from the proxy to the result *)

Section Calls.

Variable methods :
  string → option (list value → gmap string value → behaviour).
Variable format_exc : exn → string.
Variables (name : string) (args : list value) (kwargs : gmap string value).

Lemma sender_run_stuck fuel pc x :
  sender_step name args kwargs pc x = None →
  sender_run fuel name args kwargs pc x = (pc, x).
Proof. intros H. destruct fuel; [done|]. simpl. by rewrite H. Qed.

Lemma sender_run_add n m pc x :
  sender_run (n + m) name args kwargs pc x
  = sender_run m name args kwargs
      (fst (sender_run n name args kwargs pc x))
      (snd (sender_run n name args kwargs pc x)).
Proof.
  revert pc x. induction n as [|n IH]; intros pc x; [done|].
  simpl. destruct (sender_step name args kwargs pc x) as [[pc' x']|] eqn:E.
  - apply IH.
  - simpl. by rewrite sender_run_stuck.
Qed.

(** Fuel beyond what brings the thread past the release changes
    nothing. *)
Lemma sender_run_released n fuel pc x x' :
  sender_run n name args kwargs pc x = (Released, x') → n ≤ fuel →
  sender_run fuel name args kwargs pc x = (Released, x').
Proof.
  intros Hn Hle. replace fuel with (n + (fuel - n)) by lia.
  rewrite sender_run_add, Hn. simpl. by apply sender_run_stuck.
Qed.

(** The loop on plain values and then [END]. *)
Lemma sender_drains vs x rest :
  Forall (λ v, plain v = true) vs →
  done (future x) = false → response_queue x = vs ++ VStr END :: rest →
  ∃ x', sender_run (2 * length vs + 3) name args kwargs AtWhile x
        = (Released, x')
      ∧ _responses (future x') = _responses (future x) ++ vs
      ∧ _exception (future x') = _exception (future x)
      ∧ done (future x') = true
      ∧ response_queue x' = rest
      ∧ lock_held x' = false.
Proof.
  intros Hp Hd Hq.
  destruct (sender_run_plain name args kwargs vs 3 x (VStr END :: rest)
              Hp Hd Hq) as (x1 & -> & Hr & He & Hd1 & Hq1 & Hl).
  rewrite sender_turn with (response := VStr END) (rest := rest);
    [|done|done].
  unfold deliver, set_done. cbn. rewrite Hd1. cbn.
  eexists. split; [reflexivity|]. by cbn.
Qed.


Lemma emit_idle ys : emit ys [] [] = (ys, ([], [])).
Proof. induction ys as [|y ys IH]; [done|]. simpl. by rewrite IH. Qed.

(** What [_receive] puts for a message taken from a queue that holds
    and receives nothing else. *)
Lemma receive_idle message :
  _receive methods format_exc message [] []
  = match dispatch methods message with
    | BReturn v => Received [v; VStr END] [] [] None
    | BGenerator ys GenStop => Received (ys ++ [VStr END]) [] [] None
    | BGenerator ys (GenRaise e) => handle format_exc e ys [] []
    | BRaise e => handle format_exc e [] [] []
    end.
Proof.
  unfold _receive. destruct (dispatch methods message) as [v|ys fin|e];
    try done.
  by rewrite emit_idle.
Qed.

(** A call on an actor whose lock is free and whose message queue is
    empty: the sender thread is at the test of the loop, holding the
    lock, with a new future and the backend's puts behind what the
    response queue held. *)
Lemma call_once_start fuel x :
  lock_held x = false → message_queue x = [] →
  call_once methods format_exc name args kwargs fuel x
  = sender_run fuel name args kwargs AtWhile
      (Exchange Future__init__
         (mq_after (_receive methods format_exc
                      (MqMessage (Build_Message name args kwargs)) [] []))
         (response_queue x
            ++ pushed (_receive methods format_exc
                         (MqMessage (Build_Message name args kwargs)) [] []))
         true []).
Proof.
  intros Hl Hq. unfold call_once, proxy_call. cbn. rewrite Hl. cbn.
  unfold backend_serve. cbn. by rewrite Hq.
Qed.

End Calls.

Section CallFacts.

Variable methods :
  string → option (list value → gmap string value → behaviour).
Variable format_exc : exn → string.
Variables (name : string) (args : list value) (kwargs : gmap string value).

Lemma sender_run_keeps_message_queue fuel pc x :
  pc ≠ AtAcquire → cancelled (future x) = false →
  message_queue (snd (sender_run fuel name args kwargs pc x))
  = message_queue x.
Proof.
  revert pc x. induction fuel as [|fuel IH]; intros pc x Hpc Hc; [done|].
  simpl. destruct pc; try done; simpl.
  - destruct (done (future x)); [|rewrite Hc];
      (rewrite IH; [done|done|done]).
  - destruct (response_queue x) as [|response rest]; [done|].
    rewrite IH; [done| |].
    + by destruct (how _).
    + simpl. by rewrite deliver_cancelled.
Qed.

(** The call when what the backend puts is plain values and [END]. *)
Lemma call_completes vs fuel x :
  lock_held x = false → message_queue x = [] → response_queue x = [] →
  _receive methods format_exc (MqMessage (Build_Message name args kwargs)) [] []
  = Received (vs ++ [VStr END]) [] [] None →
  Forall (λ v, plain v = true) vs → 2 * length vs + 3 ≤ fuel →
  ∃ x', call_once methods format_exc name args kwargs fuel x = (Released, x')
      ∧ done (future x') = true
      ∧ _responses (future x') = vs
      ∧ _exception (future x') = None
      ∧ lock_held x' = false
      ∧ message_queue x' = []
      ∧ response_queue x' = [].
Proof.
  intros Hl Hm Hq Hr Hp Hf. rewrite call_once_start, Hr, Hq by done. cbn.
  edestruct (sender_drains name args kwargs vs
               (Exchange Future__init__ [] (vs ++ [VStr END]) true []) [])
    as (x' & Hrun & H1 & H2 & H3 & H4 & H5); [done|done|done|].
  exists x'. split; [by apply (sender_run_released _ _ _ _ _ _ _ _ Hrun)|].
  repeat split; try done.
  pose proof (sender_run_keeps_message_queue (2 * length vs + 3) AtWhile
                (Exchange Future__init__ [] (vs ++ [VStr END]) true []))
    as Hk.
  rewrite Hrun in Hk. by apply Hk.
Qed.


End CallFacts.

(** X6.  A call of a method that returns a plain value [v] (not the
    [END] string, not an exception object), on an actor at rest: the
    sender thread ends past the release, the future is done with [v] as
    its one response and no exception, [result()] returns [v], and the
    actor is at rest again, lock free and both queues empty. *)
Theorem call_returns_value
    (methods : string → option (list value → gmap string value → behaviour))
    (format_exc : exn → string) (name : string) (args : list value)
    (kwargs : gmap string value) (v : value) (fuel : nat) (x : exchange) :
  lock_held x = false → message_queue x = [] → response_queue x = [] →
  dispatch methods (MqMessage (Build_Message name args kwargs)) = BReturn v →
  plain v = true → 5 ≤ fuel →
  ∃ x', call_once methods format_exc name args kwargs fuel x = (Released, x')
      ∧ done (future x') = true
      ∧ _responses (future x') = [v]
      ∧ (∀ ev, result ev (future x') = (future x', Returned v))
      ∧ lock_held x' = false
      ∧ message_queue x' = []
      ∧ response_queue x' = [].
Proof.
  intros Hl Hm Hq Hd Hp Hf.
  destruct (call_completes methods format_exc name args kwargs [v] fuel x)
    as (x' & Hrun & H1 & H2 & H3 & H4 & H5 & H6); try done.
  - by rewrite receive_idle, Hd.
  - by apply Forall_singleton.
  - exists x'. repeat split; try done.
    intros ev. unfold result, _response. by rewrite H3, H1, H2.
Qed.

Lemma call_returns_value_witness :
  ∃ x', call_once example_methods example_format_exc "add"
          [VInt 2; VInt 3] ∅ 5 (Exchange Future__init__ [] [] false [])
        = (Released, x')
      ∧ ∀ ev, result ev (future x') = (future x', Returned (VInt 5)).
Proof.
  destruct (call_returns_value example_methods example_format_exc "add"
              [VInt 2; VInt 3] ∅ (VInt 5) 5
              (Exchange Future__init__ [] [] false []))
    as (x' & Hrun & _ & _ & Hres & _);
    [reflexivity | reflexivity | reflexivity | reflexivity | reflexivity
    | lia |].
  exists x'. by split.
Defined.

(** X7.  A call of a generator method that yields plain values and
    stops: the future is done with exactly the yielded values as
    responses, in order, and [result()] returns [None] for none, the
    value for one, and the list for more. *)
Theorem call_collects_generator
    (methods : string → option (list value → gmap string value → behaviour))
    (format_exc : exn → string) (name : string) (args : list value)
    (kwargs : gmap string value) (ys : list value) (fuel : nat)
    (x : exchange) :
  lock_held x = false → message_queue x = [] → response_queue x = [] →
  dispatch methods (MqMessage (Build_Message name args kwargs))
  = BGenerator ys GenStop →
  Forall (λ v, plain v = true) ys → 2 * length ys + 3 ≤ fuel →
  ∃ x', call_once methods format_exc name args kwargs fuel x = (Released, x')
      ∧ done (future x') = true
      ∧ _responses (future x') = ys
      ∧ (∀ ev, result ev (future x')
               = (future x',
                  Returned match ys with
                           | [] => VNone
                           | [y] => y
                           | _ => VList ys
                           end))
      ∧ lock_held x' = false
      ∧ message_queue x' = []
      ∧ response_queue x' = [].
Proof.
  intros Hl Hm Hq Hd Hp Hf.
  destruct (call_completes methods format_exc name args kwargs ys fuel x)
    as (x' & Hrun & H1 & H2 & H3 & H4 & H5 & H6); try done.
  - by rewrite receive_idle, Hd.
  - exists x'. repeat split; try done.
    intros ev. unfold result, _response. by rewrite H3, H1, H2.
Qed.

Lemma call_collects_generator_witness :
  ∃ x', call_once example_methods example_format_exc "countdown"
          [VInt 3] ∅ 9 (Exchange Future__init__ [] [] false [])
        = (Released, x')
      ∧ ∀ ev, result ev (future x')
              = (future x', Returned (VList [VInt 3; VInt 2; VInt 1])).
Proof.
  destruct (call_collects_generator example_methods example_format_exc
              "countdown" [VInt 3] ∅ (countdown 3) 9
              (Exchange Future__init__ [] [] false []))
    as (x' & Hrun & _ & _ & Hres & _);
    [reflexivity | reflexivity | reflexivity | reflexivity
    | repeat constructor | simpl; lia |].
  exists x'. by split.
Defined.





Lemma deliver_exception_object (e : exn) (fut : Future) :
  exc_is_Exception e = true → deliver (VExc e) fut = set_exception e fut.
Proof. intros He. unfold deliver. simpl. by rewrite He. Qed.

(** X10.  A method that returns, not raises, an object that is an
    instance of [Exception]: the sender thread records it as the
    exception of the future, the future has no response, and
    [result()] raises the object. *)
Theorem returned_exception_is_raised
    (methods : string → option (list value → gmap string value → behaviour))
    (format_exc : exn → string) (name : string) (args : list value)
    (kwargs : gmap string value) (e : exn) (fuel : nat) (x : exchange) :
  lock_held x = false → message_queue x = [] → response_queue x = [] →
  dispatch methods (MqMessage (Build_Message name args kwargs))
  = BReturn (VExc e) →
  exc_is_Exception e = true → 5 ≤ fuel →
  ∃ x', call_once methods format_exc name args kwargs fuel x = (Released, x')
      ∧ done (future x') = true
      ∧ _responses (future x') = []
      ∧ ∀ ev, result ev (future x') = (future x', Raised e).
Proof.
  intros Hl Hm Hq Hd He Hf.
  rewrite call_once_start, receive_idle, Hd, Hq by done. cbn.
  eexists. split.
  - apply (sender_run_released name args kwargs 5); [|done].
    rewrite (sender_turn _ _ _ 3 _ (VExc e) [VStr END]) by done.
    rewrite (deliver_exception_object e) by done.
    cbn [how set_exception after invoked].
    rewrite (sender_turn _ _ _ 1 _ (VStr END) []) by done.
    reflexivity.
  - by cbn.
Qed.

Lemma returned_exception_is_raised_witness :
  ∃ x', call_once (λ _, Some (λ _ _, BReturn (VExc (ValueError "kept"))))
          example_format_exc "f" [] ∅ 5
          (Exchange Future__init__ [] [] false [])
        = (Released, x')
      ∧ done (future x') = true.
Proof.
  destruct (returned_exception_is_raised
              (λ _, Some (λ _ _, BReturn (VExc (ValueError "kept"))))
              example_format_exc "f" [] ∅ (ValueError "kept") 5
              (Exchange Future__init__ [] [] false []))
    as (x' & Hrun & Hd & _);
    [reflexivity | reflexivity | reflexivity | reflexivity | reflexivity
    | lia |].
  exists x'. by split.
Defined.

(** X11.  A method that returns the string equal to [Message.END]: the
    sender thread takes the value for the end of the call.  The future
    is done with no response, [result()] returns [None], and the [END]
    the backend put after the value is left on the response queue. *)
Theorem sentinel_value_ends_call
    (methods : string → option (list value → gmap string value → behaviour))
    (format_exc : exn → string) (name : string) (args : list value)
    (kwargs : gmap string value) (v : value) (fuel : nat) (x : exchange) :
  lock_held x = false → message_queue x = [] → response_queue x = [] →
  dispatch methods (MqMessage (Build_Message name args kwargs)) = BReturn v →
  is_END v = true → 3 ≤ fuel →
  ∃ x', call_once methods format_exc name args kwargs fuel x = (Released, x')
      ∧ done (future x') = true
      ∧ _responses (future x') = []
      ∧ (∀ ev, result ev (future x') = (future x', Returned VNone))
      ∧ lock_held x' = false
      ∧ response_queue x' = [VStr END].
Proof.
  intros Hl Hm Hq Hd He Hf.
  rewrite call_once_start, receive_idle, Hd, Hq by done. cbn.
  eexists. split.
  - apply (sender_run_released name args kwargs 3); [|done].
    rewrite (sender_turn _ _ _ 1 _ v [VStr END]) by done.
    unfold deliver. rewrite He. reflexivity.
  - by cbn.
Qed.

Lemma sentinel_value_ends_call_witness :
  ∃ x', call_once (λ _, Some (λ _ _, BReturn (VStr "__end__")))
          example_format_exc "f" [] ∅ 3
          (Exchange Future__init__ [] [] false [])
        = (Released, x')
      ∧ response_queue x' = [VStr END].
Proof.
  destruct (sentinel_value_ends_call
              (λ _, Some (λ _ _, BReturn (VStr "__end__")))
              example_format_exc "f" [] ∅ (VStr "__end__") 3
              (Exchange Future__init__ [] [] false []))
    as (x' & Hrun & _ & _ & _ & _ & Hq);
    [reflexivity | reflexivity | reflexivity | reflexivity | reflexivity
    | lia |].
  exists x'. by split.
Defined.

(** X12.  A call that finds an [END] left on the response queue takes
    it for its own: whatever its method does, the future is done with
    no response, [result()] returns [None], and everything the backend
    puts for this call stays on the response queue for the next one. *)
Theorem stale_END_ends_next_call
    (methods : string → option (list value → gmap string value → behaviour))
    (format_exc : exn → string) (name : string) (args : list value)
    (kwargs : gmap string value) (rest : list value) (fuel : nat)
    (x : exchange) :
  lock_held x = false → message_queue x = [] →
  response_queue x = VStr END :: rest → 3 ≤ fuel →
  ∃ x', call_once methods format_exc name args kwargs fuel x = (Released, x')
      ∧ done (future x') = true
      ∧ _responses (future x') = []
      ∧ (∀ ev, result ev (future x') = (future x', Returned VNone))
      ∧ response_queue x'
        = rest ++ pushed (_receive methods format_exc
                            (MqMessage (Build_Message name args kwargs)) [] []).
Proof.
  intros Hl Hm Hq Hf. rewrite call_once_start, Hq by done.
  eexists. split.
  - apply (sender_run_released name args kwargs 3); [|done].
    rewrite (sender_turn _ _ _ 1 _ (VStr END)
               (rest ++ pushed (_receive methods format_exc
                   (MqMessage (Build_Message name args kwargs)) [] [])))
      by done.
    reflexivity.
  - by cbn.
Qed.

Lemma stale_END_ends_next_call_witness :
  ∃ x', call_once example_methods example_format_exc "add"
          [VInt 2; VInt 3] ∅ 3
          (Exchange Future__init__ [] [VStr END] false [])
        = (Released, x')
      ∧ response_queue x' = [VInt 5; VStr END].
Proof.
  destruct (stale_END_ends_next_call example_methods example_format_exc
              "add" [VInt 2; VInt 3] ∅ [] 3
              (Exchange Future__init__ [] [VStr END] false []))
    as (x' & Hrun & _ & _ & _ & Hq);
    [reflexivity | reflexivity | reflexivity | lia |].
  exists x'. by split.
Defined.

(** X13.  [cancel()] on the future of a call whose sender thread has
    not reached the loop yet: the thread still puts the [Message], finds
    the future done and releases the lock without reading.  The backend
    serves the message all the same, and what it puts is read by the
    sender thread of the next call: that call's future gets the first
    call's value, [result()] returns it, and the second call's own
    responses stay on the response queue. *)
Theorem cancelled_call_leaks_into_next
    (methods : string → option (list value → gmap string value → behaviour))
    (format_exc : exn → string)
    (name1 : string) (args1 : list value) (kwargs1 : gmap string value)
    (name2 : string) (args2 : list value) (kwargs2 : gmap string value)
    (v1 : value) (fuel : nat) (x : exchange) :
  lock_held x = false → message_queue x = [] → response_queue x = [] →
  dispatch methods (MqMessage (Build_Message name1 args1 kwargs1))
  = BReturn v1 →
  plain v1 = true → 5 ≤ fuel →
  let first := interleave name1 args1 kwargs1
                 [Caller OpCancel; Sender; Sender] (proxy_call x) in
  let served := backend_serve methods format_exc (snd first) in
  fst first = Released
  ∧ _responses (future (snd first)) = []
  ∧ response_queue served = [v1; VStr END]
  ∧ ∃ x', call_once methods format_exc name2 args2 kwargs2 fuel served
          = (Released, x')
        ∧ _responses (future x') = [v1]
        ∧ (∀ ev, result ev (future x') = (future x', Returned v1))
        ∧ response_queue x'
          = pushed (_receive methods format_exc
                      (MqMessage (Build_Message name2 args2 kwargs2)) [] []).
Proof.
  intros Hl Hm Hq Hd Hp Hf. cbv zeta.
  assert (interleave name1 args1 kwargs1 [Caller OpCancel; Sender; Sender]
            (proxy_call x)
          = (Released,
             Exchange (after (cancel Future__init__))
               [MqMessage (Build_Message name1 args1 kwargs1)] []
               false (invoked (cancel Future__init__)))) as ->.
  { unfold interleave, proxy_call. cbn. rewrite Hl, Hm, Hq. reflexivity. }
  cbn [fst snd].
  assert (backend_serve methods format_exc
            (Exchange (after (cancel Future__init__))
               [MqMessage (Build_Message name1 args1 kwargs1)] []
               false (invoked (cancel Future__init__)))
          = Exchange (after (cancel Future__init__)) [] [v1; VStr END]
              false (invoked (cancel Future__init__))) as ->.
  { unfold backend_serve. cbn [message_queue]. by rewrite receive_idle, Hd. }
  split; [done|]. split; [done|]. split; [done|].
  rewrite call_once_start by done. cbn [response_queue].
  set (r2 := _receive methods format_exc
               (MqMessage (Build_Message name2 args2 kwargs2)) [] []).
  edestruct (sender_drains name2 args2 kwargs2 [v1]
               (Exchange Future__init__ (mq_after r2)
                  ([v1; VStr END] ++ pushed r2) true []) (pushed r2))
    as (x' & Hrun & H1 & H2 & H3 & H4 & H5);
    [by apply Forall_singleton | done | done |].
  exists x'. split; [by apply (sender_run_released _ _ _ _ _ _ _ _ Hrun)|].
  repeat split; try done.
  intros ev. unfold result, _response. by rewrite H2, H3, H1.
Qed.

Lemma cancelled_call_leaks_into_next_witness :
  ∃ x', call_once example_methods example_format_exc
          "countdown" [VInt 2] ∅ 5
          (backend_serve example_methods example_format_exc
             (snd (interleave "add" [VInt 2; VInt 3] ∅
                     [Caller OpCancel; Sender; Sender]
                     (proxy_call (Exchange Future__init__ [] [] false [])))))
        = (Released, x')
      ∧ ∀ ev, result ev (future x') = (future x', Returned (VInt 5)).
Proof.
  destruct (cancelled_call_leaks_into_next example_methods example_format_exc
              "add" [VInt 2; VInt 3] ∅ "countdown" [VInt 2] ∅ (VInt 5) 5
              (Exchange Future__init__ [] [] false []))
    as (_ & _ & _ & x' & Hrun & _ & Hres & _);
    [reflexivity | reflexivity | reflexivity | reflexivity | reflexivity
    | lia |].
  exists x'. by split.
Defined.

Lemma emit_drops (ys : list value) (q : list mq_item) :
  emit ys [] q = (ys, (drop (length ys) q, [])).
Proof.
  revert q. induction ys as [|y ys IH]; intros q; [done|].
  cbn. rewrite app_nil_r, IH. destruct q; cbn; [by rewrite drop_nil|done].
Qed.

(** X23.  While [_receive] iterates a generator, each value it puts
    costs the message queue its head: the non-blocking [get] takes the
    item and nothing keeps it.  A [Message] that is queued behind a call
    of a generator method with at least as many values as there are
    items queued is therefore never served: [_backend_loop] puts the
    values of the first call and [END], and then waits on an empty
    queue. *)
Theorem generator_discards_queued_messages
    (methods : string → option (list value → gmap string value → behaviour))
    (format_exc : exn → string) (message : mq_item) (ys : list value)
    (q : list mq_item) (fuel : nat) :
  dispatch methods message = BGenerator ys GenStop →
  mq_after (_receive methods format_exc message [] q) = drop (length ys) q
  ∧ (length q ≤ length ys → 2 ≤ fuel →
       _backend_loop methods format_exc fuel [] (message :: q)
       = (ys ++ [VStr END], LoopBlocked)).
Proof.
  intros Hd.
  assert (_receive methods format_exc message [] q
          = Received (ys ++ [VStr END]) (drop (length ys) q) [] None) as Hr.
  { unfold _receive. by rewrite Hd, emit_drops. }
  split; [by rewrite Hr|]. intros Hq Hf.
  destruct fuel as [|[|fuel]]; [lia|lia|].
  cbn [_backend_loop arrive hd tl]. rewrite app_nil_r, Hr.
  cbn [escaped pushed mq_after sched_after].
  rewrite drop_ge by done. cbn. by rewrite app_nil_r.
Qed.

Lemma generator_discards_queued_messages_witness :
  _backend_loop example_methods example_format_exc 2 []
    [MqMessage (Build_Message "countdown" [VInt 2] ∅);
     MqMessage (Build_Message "add" [VInt 2; VInt 3] ∅)]
  = ([VInt 2; VInt 1; VStr END], LoopBlocked).
Proof.
  apply (proj2 (generator_discards_queued_messages example_methods
                  example_format_exc
                  (MqMessage (Build_Message "countdown" [VInt 2] ∅))
                  (countdown 2)
                  [MqMessage (Build_Message "add" [VInt 2; VInt 3] ∅)]
                  2 eq_refl)).
  - simpl. lia.
  - lia.
Defined.

(** ** The lock *)

Section Lock.

Variables (name : string) (args : list value) (kwargs : gmap string value).

Lemma act_lock s a :
  lock_held (snd s)
  = match fst s with AtAcquire | Released => false | _ => true end →
  lock_held (snd (act name args kwargs s a))
  = match fst (act name args kwargs s a) with
    | AtAcquire | Released => false
    | _ => true
    end.
Proof.
  destruct s as [pc x]. simpl. intros Hl.
  destruct a as [|o|response]; simpl; [|done|done].
  destruct pc; simpl; try done.
  - by rewrite Hl.
  - destruct (done (future x)); [done|].
    by destruct (cancelled (future x)).
  - destruct (response_queue x) as [|response rest]; [done|]. simpl.
    by destruct (how _).
Qed.

Lemma interleave_lock moves s :
  lock_held (snd s)
  = match fst s with AtAcquire | Released => false | _ => true end →
  lock_held (snd (interleave name args kwargs moves s))
  = match fst (interleave name args kwargs moves s) with
    | AtAcquire | Released => false
    | _ => true
    end.
Proof.
  revert s. induction moves as [|a moves IH]; intros s Hs; [done|].
  simpl. apply IH. by apply act_lock.
Qed.

(** A sender thread that an exception has ended stays ended, and the
    lock stays as it left it. *)
Lemma interleave_died moves e x :
  fst (interleave name args kwargs moves (Died e, x)) = Died e
  ∧ lock_held (snd (interleave name args kwargs moves (Died e, x)))
    = lock_held x.
Proof.
  revert x. induction moves as [|a moves IH]; intros x; [done|].
  simpl. destruct a as [|o|response]; simpl.
  - apply IH.
  - destruct (IH (caller o x)) as [-> ->]. done.
  - destruct (IH (backend_put response x)) as [-> ->]. done.
Qed.

End Lock.

Lemma Actor_can_use_restores (x : exchange) : snd (Actor_can_use x) = x.
Proof.
  unfold Actor_can_use. destruct (lock_held x) eqn:E; [done|].
  simpl. destruct x. simpl in E. by subst.
Qed.

(** X14.  For a call on an actor whose lock is free, in every
    interleaving of its sender thread with the other threads: the lock
    is held exactly from the moment the thread has put the [Message]
    until it has left the loop, so [can_use()] returns false exactly
    then; and [can_use()] leaves the lock as it found it. *)
Theorem lock_follows_call (name : string) (args : list value)
    (kwargs : gmap string value) (moves : list action) (x : exchange) :
  lock_held x = false →
  let s := interleave name args kwargs moves (proxy_call x) in
  fst (Actor_can_use (snd s))
  = match fst s with AtAcquire | Released => true | _ => false end
  ∧ snd (Actor_can_use (snd s)) = snd s.
Proof.
  intros Hl. cbv zeta. split; [|apply Actor_can_use_restores].
  pose proof (interleave_lock name args kwargs moves (proxy_call x) Hl) as H.
  unfold Actor_can_use. rewrite H. by destruct (fst _).
Qed.

Lemma lock_follows_call_witness :
  fst (Actor_can_use
         (snd (interleave "add" [VInt 2; VInt 3] ∅
                 [Sender; Sender; Backend (VInt 5)]
                 (proxy_call (Exchange Future__init__ [] [] false [])))))
  = false.
Proof.
  apply (lock_follows_call "add" [VInt 2; VInt 3] ∅
           [Sender; Sender; Backend (VInt 5)]
           (Exchange Future__init__ [] [] false [])).
  reflexivity.
Defined.

(** X15.  [cancel()] on the future of a call in flight, when the sender
    thread is in [get()]: as soon as the backend's [END] is read, the
    thread is ended by the assertion of [set_done()] without releasing
    the lock.  Whatever happens afterwards, the lock stays held:
    [can_use()] returns false and the sender thread of any later call
    stays before its [acquire()], its [Message] never put. *)
Theorem cancel_in_flight_locks_actor (name : string) (args : list value)
    (kwargs : gmap string value) (moves : list action) (x : exchange) :
  lock_held x = false → response_queue x = [] →
  let s := interleave name args kwargs
             ([Sender; Sender; Caller OpCancel; Backend (VStr END); Sender]
                ++ moves)
             (proxy_call x) in
  fst s = Died AssertionError
  ∧ lock_held (snd s) = true
  ∧ fst (Actor_can_use (snd s)) = false
  ∧ ∀ name' args' kwargs' fuel,
      sender_run fuel name' args' kwargs' AtAcquire (snd (proxy_call (snd s)))
      = (AtAcquire, snd (proxy_call (snd s))).
Proof.
  intros Hl Hq. cbv zeta. unfold interleave. rewrite foldl_app.
  assert (foldl (act name args kwargs) (proxy_call x)
            [Sender; Sender; Caller OpCancel; Backend (VStr END); Sender]
          = (Died AssertionError,
             Exchange (after (cancel Future__init__))
               (message_queue x ++ [MqMessage (Build_Message name args kwargs)])
               [] true (invoked (cancel Future__init__)))) as ->.
  { unfold proxy_call. cbn. rewrite Hl, Hq. cbn.
    by rewrite !app_nil_r. }
  destruct (interleave_died name args kwargs moves AssertionError
              (Exchange (after (cancel Future__init__))
                 (message_queue x
                    ++ [MqMessage (Build_Message name args kwargs)])
                 [] true (invoked (cancel Future__init__)))) as [Hpc Hlock].
  unfold interleave in Hpc, Hlock. cbn [lock_held] in Hlock.
  split; [done|]. split; [done|]. split.
  - unfold Actor_can_use. by rewrite Hlock.
  - intros name' args' kwargs' fuel. apply sender_run_stuck.
    unfold proxy_call. cbn [snd sender_step lock_held]. by rewrite Hlock.
Qed.

Lemma cancel_in_flight_locks_actor_witness :
  fst (interleave "countdown" [VInt 3] ∅
         ([Sender; Sender; Caller OpCancel; Backend (VStr END); Sender]
            ++ [Sender; Backend (VInt 3); Sender])
         (proxy_call (Exchange Future__init__ [] [] false [])))
  = Died AssertionError.
Proof.
  apply (cancel_in_flight_locks_actor "countdown" [VInt 3] ∅
           [Sender; Backend (VInt 3); Sender]
           (Exchange Future__init__ [] [] false []));
    reflexivity.
Defined.

(** ** Setup, the shared instance and [close] *)

(** X16.  [_setup] of a frontend object adds the name [_lock] and
    neither adds nor removes another name; a name that starts with an
    underscore, and a name bound to something that cannot be called,
    keeps what it is bound to. *)
Theorem setup_keeps_private_and_data (self : gmap string attr) :
  _setup FRONTEND self !! "_lock"%string = Some Data
  ∧ dom (_setup FRONTEND self) = {[ "_lock"%string ]} ∪ dom self
  ∧ (∀ name, name ≠ "_lock"%string →
       startswith "_" name = true ∨ callable (self !! name) = false →
       _setup FRONTEND self !! name = self !! name).
Proof.
  split; [|split].
  - rewrite setup_lookup. unfold remote. cbn. rewrite andb_false_r. cbn.
    by rewrite lookup_insert_eq.
  - apply set_eq. intros name.
    rewrite elem_of_union, elem_of_singleton, !elem_of_dom, setup_lookup.
    destruct (decide (name = "_lock"%string)) as [->|Hne].
    + rewrite lookup_insert_eq. unfold remote.
      rewrite lookup_insert_eq. cbn. split; [by left | by eexists].
    + unfold remote. rewrite lookup_insert_ne by done.
      destruct (self !! name) as [a|]; cbn.
      * destruct (_ && _ && _);
          (split; [intros _; right; by eexists | intros _; by eexists]).
      * split; [by intros [? ?] | intros [?|[? ?]]; done].
  - intros name Hne H. rewrite setup_lookup. unfold remote.
    rewrite lookup_insert_ne by done.
    destruct H as [-> | ->]; simpl; [|done].
    by rewrite andb_false_r.
Qed.

Lemma setup_keeps_private_and_data_witness :
  _setup FRONTEND (members Generator_class) !! "_receive"%string
  = members Generator_class !! "_receive"%string.
Proof.
  apply (proj2 (proj2 (setup_keeps_private_and_data
                         (members Generator_class)))).
  - done.
  - left. reflexivity.
Defined.

Lemma shared_instance_after_start (cls : py_class) (self : nat) (h h' : heap) :
  start self h = Some h' → slots h' = slots h ∧ next_id h' = next_id h.
Proof.
  unfold start. destruct (objects h !! self) as [obj|]; [|done].
  destruct (context obj); [|done]. by intros [= <-].
Qed.

(** X17.  [shared()] always returns an object, and called again it
    returns the same object and constructs nothing.  When the class has
    no shared instance it constructs one: a frontend object on the two
    default queues, its process started. *)
Theorem shared_returns_same_object (cls : py_class) (h : heap) :
  ∃ self h1,
    shared cls h = Some (self, h1)
    ∧ shared cls h1 = Some (self, h1)
    ∧ (∀ inst, _shared_instance cls h = Some inst → self = inst ∧ h1 = h)
    ∧ (_shared_instance cls h = None →
         self = next_id h
         ∧ (context <$> objects h1 !! self) = Some FRONTEND
         ∧ (_message_queue <$> objects h1 !! self) = Some default_message_queue
         ∧ (_response_queue <$> objects h1 !! self)
           = Some default_response_queue
         ∧ (process <$> objects h1 !! self) = Some (Some true)).
Proof.
  unfold shared. destruct (_shared_instance cls h) as [inst|] eqn:E.
  - exists inst, h. rewrite E. split; [done|]. split; [done|].
    split; [by intros ? [= ->] | done].
  - unfold Actor__init__, start. cbn. rewrite lookup_insert_eq. cbn.
    eexists _, _. split; [reflexivity|]. split.
    + unfold _shared_instance. cbn. by rewrite lookup_insert_eq.
    + split; [done|]. intros _. cbn. by rewrite lookup_insert_eq.
Qed.

Lemma shared_returns_same_object_witness :
  ∃ self h1, shared Generator_class heap0 = Some (self, h1)
             ∧ shared Generator_class h1 = Some (self, h1)
             ∧ self = 0.
Proof.
  destruct (shared_returns_same_object Generator_class heap0)
    as (self & h1 & H1 & H2 & _ & H4).
  exists self, h1. split; [exact H1|]. split; [exact H2|].
  apply H4. reflexivity.
Defined.

(** X18.  [shared_close()] with no shared instance does nothing.  With
    a shared instance that is a backend object or a started frontend
    object, it closes it and sets the class's entry to [None], and the
    next [shared()] constructs a new object, not the closed one.  With
    a shared instance that is a frontend object never started, the
    [AttributeError] of [close()] leaves [shared_close()] and the entry
    still holds the object. *)
Theorem shared_close_then_shared (cls : py_class) (h : heap) :
  (_shared_instance cls h = None → shared_close cls h = (h, [], Returns))
  ∧ (∀ inst obj,
       _shared_instance cls h = Some inst → objects h !! inst = Some obj →
       objects h !! next_id h = None →
       context obj = BACKEND ∨ is_Some (process obj) →
       snd (shared_close cls h) = Returns
       ∧ _shared_instance cls (fst (fst (shared_close cls h))) = None
       ∧ (process <$> objects (fst (fst (shared_close cls h))) !! inst)
         = Some (match context obj with
                 | FRONTEND => Some false
                 | BACKEND => process obj
                 end)
       ∧ (fst <$> shared cls (fst (fst (shared_close cls h))))
         = Some (next_id h)
       ∧ next_id h ≠ inst)
  ∧ (∀ inst obj,
       _shared_instance cls h = Some inst → objects h !! inst = Some obj →
       context obj = FRONTEND → process obj = None →
       ∃ e, shared_close cls h = (h, [], Raises e)
            ∧ exc_class e = "AttributeError"%string).
Proof.
  unfold shared_close. split; [|split].
  - by intros ->.
  - intros inst obj Hs Ho Hfresh Hstate. rewrite Hs. unfold close. rewrite Ho.
    assert (next_id h ≠ inst) as Hne by (intros <-; congruence).
    destruct (context obj) eqn:Hc.
    + destruct Hstate as [?|[p Hp]]; [done|]. rewrite Hp. cbn.
      split; [done|]. split.
      { unfold _shared_instance. cbn. by rewrite lookup_insert_eq. }
      split; [by rewrite lookup_insert_eq|]. split; [|done].
      unfold shared, _shared_instance. cbn. rewrite lookup_insert_eq.
      unfold start. cbn. by rewrite lookup_insert_eq.
    + cbn. split; [done|]. split.
      { unfold _shared_instance. cbn. by rewrite lookup_insert_eq. }
      split; [by rewrite Ho|]. split; [|done].
      unfold shared, _shared_instance. cbn. rewrite lookup_insert_eq.
      unfold start. cbn. by rewrite lookup_insert_eq.
  - intros inst obj Hs Ho Hc Hp. rewrite Hs. unfold close.
    rewrite Ho, Hc, Hp. eexists. by split.
Qed.

Lemma shared_close_then_shared_witness :
  ∃ h1, (snd <$> shared Generator_class heap0) = Some h1
        ∧ (fst <$> shared Generator_class
                      (fst (fst (shared_close Generator_class h1))))
          = Some 1.
Proof.
  exists (default heap0 (snd <$> shared Generator_class heap0)).
  split; [reflexivity|].
  edestruct (proj1 (proj2 (shared_close_then_shared Generator_class
               (default heap0 (snd <$> shared Generator_class heap0)))) 0)
    as (_ & _ & _ & H & _); [| | | | exact H].
  - reflexivity.
  - reflexivity.
  - reflexivity.
  - right. by eexists.
Defined.

(** X19.  [close()] does not touch the entries of the classes.  A
    [close()] that has returned can be repeated: the second one returns
    too, closes the same queues, and leaves the state as the first one
    left it.  On a frontend object never started it raises
    [AttributeError] and changes nothing. *)
Theorem close_is_repeatable (self : nat) (h : heap) :
  slots (fst (fst (close self h))) = slots h
  ∧ (snd (close self h) = Returns →
       close self (fst (fst (close self h))) = close self h)
  ∧ (∀ obj, objects h !! self = Some obj → context obj = FRONTEND →
       process obj = None →
       fst (close self h) = (h, [])
       ∧ ∃ e, snd (close self h) = Raises e
              ∧ exc_class e = "AttributeError"%string).
Proof.
  unfold close. destruct (objects h !! self) as [obj|] eqn:Ho.
  - destruct (context obj) eqn:Hc.
    + destruct (process obj) as [p|] eqn:Hp; cbn.
      * split; [done|]. split; [|by intros ? [= <-]; rewrite Hp].
        intros _. rewrite lookup_insert_eq. cbn. rewrite ?Hc.
        by rewrite insert_insert_eq.
      * split; [done|]. split; [done|]. intros ? [= <-] _ _. eauto.
    + cbn. split; [done|]. split; [|by intros ? [= <-]; rewrite Hc].
      intros _. by rewrite Ho, Hc.
  - cbn. split; [done|]. split; [|done]. intros _. by rewrite Ho.
Qed.

Lemma close_is_repeatable_witness :
  ∃ h1, (snd <$> shared Generator_class heap0) = Some h1
        ∧ close 0 (fst (fst (close 0 h1))) = close 0 h1.
Proof.
  exists (default heap0 (snd <$> shared Generator_class heap0)).
  split; [reflexivity|].
  apply (proj1 (proj2 (close_is_repeatable 0
            (default heap0 (snd <$> shared Generator_class heap0))))).
  reflexivity.
Defined.

(** * Properties of [prompt_to_image.py] *)

(** ** [Optimizations] *)



(** X21.  [apply] with a [device] that is a [str] returns the
    pipeline after setting [torch.backends.cudnn.benchmark] and
    [torch.backends.cuda.matmul.allow_tf32] to [False], whatever
    [cudnn_benchmark] and [tf32] are set to.  It makes one call for
    attention slicing (enabling with [attention_slice_size], or
    disabling), the call for CPU offload when that option is set, and
    one call for the memory format, in this order. *)
Theorem apply_on_str_device (self : Optimizations) (s : string) :
  Optimizations_apply self (DevStr s)
  = Some (Applied false false
            ([if attention_slicing self
              then EnableAttentionSlicing (attention_slice_size self)
              else DisableAttentionSlicing]
             ++ (if sequential_cpu_offload self
                 then [EnableSequentialCpuOffload] else [])
             ++ [UnetTo (if channels_last_memory_format self
                         then "channels_last" else "contiguous_format")])).
Proof.
  destruct self as [b_as size b_im b_cb b_tf b_amp b_hp b_sco b_cl b_cpu].
  by destruct b_cb, b_tf, b_as, b_sco, b_cl.
Qed.

(** ** [_configure_model_padding] *)

Lemma configure_module_twice (s1 s2 : bool) (a1 a2 : list string)
    (m : module) :
  configure_module s2 a2 (configure_module s1 a1 m) = configure_module s2 a2 m.
Proof.
  unfold configure_module. destruct (is_conv m) eqn:Hc; [|by rewrite Hc].
  destruct (_reversed_padding_repeated_twice m) as [[[p0 p1] p2] p3] eqn:Hp.
  destruct s1, s2; cbn; by rewrite ?Hp.
Qed.

(** X22.  What [_configure_model_padding] leaves on the modules
    depends on its last call only: after any earlier call, a call
    gives what it gives on the modules as they were.  So switching
    [seamless] off after on removes [asymmetric_padding_mode] and
    [asymmetric_padding] from every convolution again, and repeating a
    call changes nothing.  The modules that are not convolutions are
    never changed, and with [seamless] on a convolution gets
    ["circular"] on an axis exactly when the axis is listed. *)
Theorem padding_last_call_wins (modules : list module) (s1 s2 : bool)
    (a1 a2 : list string) :
  _configure_model_padding (_configure_model_padding modules s1 a1) s2 a2
  = _configure_model_padding modules s2 a2
  ∧ (∀ m, m ∈ _configure_model_padding
                (_configure_model_padding modules true a1) false a2 →
          is_conv m = true →
          asymmetric_padding_mode m = None ∧ asymmetric_padding m = None
          ∧ _conv_forward m = BoundConv2dForward)
  ∧ (∀ i m, modules !! i = Some m → is_conv m = false →
            _configure_model_padding modules s1 a1 !! i = Some m)
  ∧ (∀ i m, modules !! i = Some m → is_conv m = true →
       ∃ m', _configure_model_padding modules true a1 !! i = Some m'
             ∧ _conv_forward m' = BoundAsymmetricForward
             ∧ ∃ mx my, asymmetric_padding_mode m' = Some (mx, my)
                 ∧ (mx = "circular"%string ↔ "x"%string ∈ a1)
                 ∧ (my = "circular"%string ↔ "y"%string ∈ a1)).
Proof.
  assert (∀ s1 s2 a1 a2,
            _configure_model_padding (_configure_model_padding modules s1 a1)
              s2 a2 = _configure_model_padding modules s2 a2) as Hlast.
  { intros. unfold _configure_model_padding. rewrite <- list_fmap_compose.
    apply list_fmap_ext. intros _ m _. apply configure_module_twice. }
  split; [apply Hlast|]. split; [|split].
  - intros m. rewrite Hlast. unfold _configure_model_padding.
    intros (m0 & -> & _)%list_elem_of_fmap. unfold configure_module.
    destruct (is_conv m0) eqn:Hc; cbn; [done|]. by rewrite Hc.
  - intros i m Hi Hc. unfold _configure_model_padding.
    rewrite list_lookup_fmap, Hi. cbn. unfold configure_module.
    by rewrite Hc.
  - intros i m Hi Hc. unfold _configure_model_padding.
    rewrite list_lookup_fmap, Hi. cbn. unfold configure_module. rewrite Hc.
    destruct (_reversed_padding_repeated_twice m) as [[[p0 p1] p2] p3].
    eexists. split; [reflexivity|]. split; [done|].
    eexists _, _. split; [reflexivity|]. split.
    + case_bool_decide; split; done.
    + case_bool_decide; split; done.
Qed.

Lemma padding_last_call_wins_witness :
  _configure_model_padding
    [MkModule true (1, 1, 2, 2)%Z None None ClassForward;
     MkModule false (0, 0, 0, 0)%Z None None ClassForward]
    true ["x"%string] !! 1
  = Some (MkModule false (0, 0, 0, 0)%Z None None ClassForward).
Proof.
  apply (proj1 (proj2 (proj2 (padding_last_call_wins
           [MkModule true (1, 1, 2, 2)%Z None None ClassForward;
            MkModule false (0, 0, 0, 0)%Z None None ClassForward]
           true false ["x"%string] [])))); reflexivity.
Defined.
